(** * Stepper motor motion-profile engine (lib/stepper.hpp)

    A shallow embedding of [struct stepper] and of its member functions,
    followed by the properties of the engine that the specification states.

    Conventions:
    - the fixed-width integers of the source ([uint8_t], [uint32_t],
      [int32_t]) are [Z] with the wrap-around written out;
    - the array [_delay0[MICRO_LEVELS]] is a [list Z];
    - the floating-point arithmetic of the platform ([float], [double],
      [sqrt], the conversions) is an interface, [FloatArith]; an IEEE 754
      instance over [SpecFloat] is given for evaluation;
    - the [while] loop of [shift_up] takes fuel, and the functions that
      reach it return an [option]: [None] is "has not returned";
    - [pinMode] and [digitalWrite] are recorded as a list of events. *)

From Stdlib Require Import ZArith List Bool Lia.
From Stdlib Require Import Floats.SpecFloat.
Import ListNotations.

Local Open Scope Z_scope.

(** ** Machine integers *)

Module Int.

Definition wrap8 (x : Z) : Z := x mod 2 ^ 8.
Definition wrap32 (x : Z) : Z := x mod 2 ^ 32.

(** Two's complement [int32_t]. *)
Definition wrap_int32 (x : Z) : Z := (x + 2 ^ 31) mod 2 ^ 32 - 2 ^ 31.

(** [x <<= k] and [x >>= k] on a [uint32_t].  C++ leaves a shift by 32 or
    more undefined; the engine never shifts by more than 30 (see [scaled]
    below). *)
Definition shl32 (x k : Z) : Z := wrap32 (Z.shiftl x k).
Definition shr32 (x k : Z) : Z := Z.shiftr x k.

Definition u32 (x : Z) : Prop := 0 <= x < 2 ^ 32.

End Int.

Import Int.

(** ** Driver and stepping constants *)

Definition STEPPER_ENABLE : Z := 0.
Definition MODE_CHANGE_US : Z := 1.
Definition ENABLE_US : Z := 1.
Definition STEPPING_PULSE_US : Z := 1.
Definition MICRO_LEVELS : nat := 6.
Definition SHIFT_THRESHOLD : Z := Z.shiftl 1 30.

(** [!STEPPER_ENABLE] as a pin value. *)
Definition not_STEPPER_ENABLE : Z := if STEPPER_ENABLE =? 0 then 1 else 0.

(** ** Floating-point arithmetic of the platform

    The operations are those the source applies, typed by the usual
    arithmetic conversions of C++: [1/accel] is a [float] division, the
    products with the literals [0.676] and [1e6] and the quotient
    [1e6 / speed] are [double] operations, [d0] is a [float]. *)

Class FloatArith : Type := {
  float : Type;
  double : Type;
  float_of_int : Z -> float;
  fdiv : float -> float -> float;
  float_to_double : float -> double;
  double_to_float : double -> float;
  (** [sqrt] applied to a [float], as it enters a [double] product *)
  sqrt_of_float : float -> double;
  (** [sqrt] applied to an [int] *)
  sqrt_of_int : Z -> double;
  dmul : double -> double -> double;
  ddiv : double -> double -> double;
  lit_0_676 : double;
  lit_1e6 : double;
  lit_10_0 : double;
  (** conversion to [uint32_t] / [delay_t] *)
  double_to_u32 : double -> Z;
  double_to_u32_range : forall x, u32 (double_to_u32 x);
  double_to_u32_1e6 : double_to_u32 lit_1e6 = 1000000
}.

(** ** The engine state *)

Inductive state : Set := OFF | ACCEL | DECEL | TARGET_SPEED.

Definition state_eqb (a b : state) : bool :=
  match a, b with
  | OFF, OFF | ACCEL, ACCEL | DECEL, DECEL | TARGET_SPEED, TARGET_SPEED => true
  | _, _ => false
  end.

Record stepper : Set := mk_stepper {
  _dir_pin : Z;
  _step_pin : Z;
  _enable_pin : Z;
  _micro0_pin : Z;
  _micro1_pin : Z;
  _micro2_pin : Z;
  _forward_value : Z;
  _dir : Z;
  _pos : Z;
  _target_pos : Z;
  _accel_steps : Z;
  _micro : Z;
  _delay0 : list Z;
  _delay : Z;
  _smooth_delay : Z;
  _target_delay : Z;
  _shift : Z;
  _step : Z;
  _state : state
}.

(** Field updates. *)

Definition set_pos (v : Z) (s : stepper) : stepper :=
  mk_stepper (_dir_pin s) (_step_pin s) (_enable_pin s) (_micro0_pin s)
    (_micro1_pin s) (_micro2_pin s) (_forward_value s) (_dir s) v
    (_target_pos s) (_accel_steps s) (_micro s) (_delay0 s) (_delay s)
    (_smooth_delay s) (_target_delay s) (_shift s) (_step s) (_state s).

Definition set_target_pos (v : Z) (s : stepper) : stepper :=
  mk_stepper (_dir_pin s) (_step_pin s) (_enable_pin s) (_micro0_pin s)
    (_micro1_pin s) (_micro2_pin s) (_forward_value s) (_dir s) (_pos s)
    v (_accel_steps s) (_micro s) (_delay0 s) (_delay s)
    (_smooth_delay s) (_target_delay s) (_shift s) (_step s) (_state s).

Definition set_accel_steps (v : Z) (s : stepper) : stepper :=
  mk_stepper (_dir_pin s) (_step_pin s) (_enable_pin s) (_micro0_pin s)
    (_micro1_pin s) (_micro2_pin s) (_forward_value s) (_dir s) (_pos s)
    (_target_pos s) v (_micro s) (_delay0 s) (_delay s)
    (_smooth_delay s) (_target_delay s) (_shift s) (_step s) (_state s).

Definition set_delay0 (v : list Z) (s : stepper) : stepper :=
  mk_stepper (_dir_pin s) (_step_pin s) (_enable_pin s) (_micro0_pin s)
    (_micro1_pin s) (_micro2_pin s) (_forward_value s) (_dir s) (_pos s)
    (_target_pos s) (_accel_steps s) (_micro s) v (_delay s)
    (_smooth_delay s) (_target_delay s) (_shift s) (_step s) (_state s).

Definition set_delay (v : Z) (s : stepper) : stepper :=
  mk_stepper (_dir_pin s) (_step_pin s) (_enable_pin s) (_micro0_pin s)
    (_micro1_pin s) (_micro2_pin s) (_forward_value s) (_dir s) (_pos s)
    (_target_pos s) (_accel_steps s) (_micro s) (_delay0 s) v
    (_smooth_delay s) (_target_delay s) (_shift s) (_step s) (_state s).

Definition set_smooth_delay (v : Z) (s : stepper) : stepper :=
  mk_stepper (_dir_pin s) (_step_pin s) (_enable_pin s) (_micro0_pin s)
    (_micro1_pin s) (_micro2_pin s) (_forward_value s) (_dir s) (_pos s)
    (_target_pos s) (_accel_steps s) (_micro s) (_delay0 s) (_delay s)
    v (_target_delay s) (_shift s) (_step s) (_state s).

Definition set_target_delay (v : Z) (s : stepper) : stepper :=
  mk_stepper (_dir_pin s) (_step_pin s) (_enable_pin s) (_micro0_pin s)
    (_micro1_pin s) (_micro2_pin s) (_forward_value s) (_dir s) (_pos s)
    (_target_pos s) (_accel_steps s) (_micro s) (_delay0 s) (_delay s)
    (_smooth_delay s) v (_shift s) (_step s) (_state s).

Definition set_shift (v : Z) (s : stepper) : stepper :=
  mk_stepper (_dir_pin s) (_step_pin s) (_enable_pin s) (_micro0_pin s)
    (_micro1_pin s) (_micro2_pin s) (_forward_value s) (_dir s) (_pos s)
    (_target_pos s) (_accel_steps s) (_micro s) (_delay0 s) (_delay s)
    (_smooth_delay s) (_target_delay s) v (_step s) (_state s).

Definition set_state (v : state) (s : stepper) : stepper :=
  mk_stepper (_dir_pin s) (_step_pin s) (_enable_pin s) (_micro0_pin s)
    (_micro1_pin s) (_micro2_pin s) (_forward_value s) (_dir s) (_pos s)
    (_target_pos s) (_accel_steps s) (_micro s) (_delay0 s) (_delay s)
    (_smooth_delay s) (_target_delay s) (_shift s) (_step s) v.

(** [a[i]] and [a[i] = v] on the array [_delay0]; every index the source
    uses is below [MICRO_LEVELS]. *)

Definition get (a : list Z) (i : nat) : Z := nth i a 0.

Fixpoint put (a : list Z) (i : nat) (v : Z) : list Z :=
  match a, i with
  | [], _ => []
  | _ :: t, O => v :: t
  | h :: t, S j => h :: put t j v
  end.

(** [for (uint8_t i = 0; i < n; ++i) body(i)], counting from [i]. *)
Fixpoint for_from (i n : nat) (body : nat -> stepper -> stepper)
    (s : stepper) : stepper :=
  match n with
  | O => s
  | S n' => for_from (S i) n' body (body i s)
  end.

Definition for_levels := for_from 0 MICRO_LEVELS.

(** ** Effects on the pins *)

Inductive pin_mode : Set := OUTPUT.

Inductive io_event : Set :=
| pinMode (pin : Z) (mode : pin_mode)
| digitalWrite (pin : Z) (value : Z).

(** ** Member functions *)

Notation "x <- e ;; k" :=
  (match e with Some x => k | None => None end)
  (at level 61, e at next level, right associativity).

Section Engine.

Context {FA : FloatArith}.

Definition is_stopped (s : stepper) : bool :=
  (_pos s =? _target_pos s) && (_accel_steps s =? 0).

Definition shift_down (s : stepper) : stepper :=
  let s := for_levels (fun i s =>
             set_delay0 (put (_delay0 s) i
                           (shr32 (get (_delay0 s) i) (_shift s))) s) s in
  let s := set_delay (shr32 (_delay s) (_shift s)) s in
  let s := set_target_delay (shr32 (_target_delay s) (_shift s)) s in
  let s := set_smooth_delay (shr32 (_smooth_delay s) (_shift s)) s in
  set_shift 0 s.

(** [while (max_delay < SHIFT_THRESHOLD) { _shift += 1; max_delay <<= 1; }]
    on the pair ([_shift], [max_delay]); [None] when the fuel is used up
    before the loop exits. *)
Fixpoint shift_up_loop (fuel : nat) (shift max_delay : Z) : option (Z * Z) :=
  if max_delay <? SHIFT_THRESHOLD then
    match fuel with
    | O => None
    | S fuel' => shift_up_loop fuel' (wrap8 (shift + 1)) (shl32 max_delay 1)
    end
  else Some (shift, max_delay).

(** [std::max(std::max(_delay0[MICRO_LEVELS - 1], _target_delay), _smooth_delay)] *)
Definition max_delay_of (s : stepper) : Z :=
  Z.max (Z.max (get (_delay0 s) (MICRO_LEVELS - 1)) (_target_delay s))
        (_smooth_delay s).

Definition shift_up (fuel : nat) (s : stepper) : option stepper :=
  if negb (_shift s =? 0) then Some s
  else
    r <- shift_up_loop fuel (_shift s) (max_delay_of s) ;;
    let s := set_shift (fst r) s in
    let s := for_levels (fun i s =>
               set_delay0 (put (_delay0 s) i
                             (shl32 (get (_delay0 s) i) (_shift s))) s) s in
    let s := set_delay (shl32 (_delay s) (_shift s)) s in
    let s := set_target_delay (shl32 (_target_delay s) (_shift s)) s in
    let s := set_smooth_delay (shl32 (_smooth_delay s) (_shift s)) s in
    Some s.

Definition calibrate_position (fuel : nat) (pos : Z) (s : stepper)
    : option stepper :=
  if negb (is_stopped s) then Some s
  else
    let s := shift_down s in
    let s := set_pos pos s in
    shift_up fuel s.

(** [on] and [off] read the clock ([now]) and return the timestamp, the
    new state and the pin writes. *)
Definition on (now : Z) (s : stepper) : Z * stepper * list io_event :=
  (wrap32 (now + ENABLE_US + 1),
   set_state ACCEL s,
   [digitalWrite (_enable_pin s) STEPPER_ENABLE]).

Definition off (now : Z) (s : stepper) : Z * stepper * list io_event :=
  let s1 := set_accel_steps 0 s in
  let s2 := set_delay (get (_delay0 s1) (Z.to_nat (_micro s1))) s1 in
  (wrap32 (now + ENABLE_US + 1),
   set_state OFF s2,
   [digitalWrite (_enable_pin s) not_STEPPER_ENABLE]).

Definition acceleration (fuel : nat) (accel : float) (s : stepper)
    : option stepper :=
  if negb (is_stopped s) then Some s
  else
    let s := shift_down s in
    let s := set_delay (get (_delay0 s) (Z.to_nat (_micro s))) s in
    let d0 : float :=
      double_to_float
        (dmul (dmul (sqrt_of_float (fdiv (float_of_int 1) accel)) lit_0_676)
              lit_1e6) in
    let s := for_levels (fun m s =>
               set_delay0 (put (_delay0 s) m
                 (double_to_u32
                    (dmul (float_to_double d0)
                          (sqrt_of_int (Z.shiftl 1 (Z.of_nat m)))))) s) s in
    shift_up fuel s.

Definition target_pos (pos : Z) (s : stepper) : stepper :=
  set_target_pos (wrap_int32 (Z.shiftl pos (_micro s))) s.

Definition target_speed (fuel : nat) (speed : float) (s : stepper)
    : option stepper :=
  let s := shift_down s in
  let s := set_target_delay
             (double_to_u32 (ddiv lit_1e6 (float_to_double speed))) s in
  let s :=
    if negb (is_stopped s) && negb (state_eqb (_state s) OFF) then
      if _target_delay s >? _delay s then set_state DECEL s
      else set_state ACCEL s
    else s in
  shift_up fuel s.

Definition step (s : stepper) : Z * stepper := (0, s).

Definition DEFAULT_TARGET_SPEED : double := lit_10_0.
Definition DEFAULT_ACCEL : double := lit_10_0.

(** The constructor. [mem] is the content of the storage of [_delay0],
    which no member initialiser sets and which the first call of
    [acceleration] reads. *)
Definition stepper_stepper (fuel : nat)
    (dir_pin step_pin enable_pin micro0_pin micro1_pin micro2_pin : Z)
    (forward_value smooth_delay : Z) (mem : list Z)
    : option (stepper * list io_event) :=
  let s := mk_stepper dir_pin step_pin enable_pin micro0_pin micro1_pin
             micro2_pin forward_value
             1 0 0 0 0 mem 0 smooth_delay (double_to_u32 lit_1e6) 0 0 ACCEL in
  let io := [ pinMode dir_pin OUTPUT; pinMode step_pin OUTPUT;
              pinMode enable_pin OUTPUT; pinMode micro0_pin OUTPUT;
              pinMode micro1_pin OUTPUT; pinMode micro2_pin OUTPUT;
              digitalWrite dir_pin forward_value;
              digitalWrite enable_pin not_STEPPER_ENABLE;
              digitalWrite micro0_pin 0; digitalWrite micro1_pin 0;
              digitalWrite micro2_pin 0 ] in
  s <- acceleration fuel (double_to_float DEFAULT_ACCEL) s ;;
  s <- target_speed fuel (double_to_float DEFAULT_TARGET_SPEED) s ;;
  Some (s, io).

(** [n] successive calls of [step]: the values returned, and the state. *)
Fixpoint steps (n : nat) (s : stepper) : list Z * stepper :=
  match n with
  | O => ([], s)
  | S n' => let '(t, s1) := step s in
            let '(ts, s2) := steps n' s1 in
            (t :: ts, s2)
  end.

(** The formula of the specification for the ramp table:
    [d0 = sqrt(1/acceleration) * k * 1e6] and
    [start_delay[m] = d0 * sqrt(2^m)], in the arithmetic of the platform. *)
Definition spec_d0 (accel : float) : float :=
  double_to_float
    (dmul (dmul (sqrt_of_float (fdiv (float_of_int 1) accel)) lit_0_676) lit_1e6).

Definition spec_start_delay (accel : float) (m : nat) : Z :=
  double_to_u32 (dmul (float_to_double (spec_d0 accel))
                      (sqrt_of_int (2 ^ Z.of_nat m))).

End Engine.

(** ** IEEE 754 arithmetic

    [float] is binary32 and [double] is binary64, both over [spec_float];
    every operation rounds to nearest, ties to even.  [sqrt] is the
    [double] function of the C library.  A conversion to [uint32_t]
    truncates toward zero; outside the range of [uint32_t] (undefined in
    C++) it is reduced modulo [2^32], and it is [0] on infinities and NaN. *)

Module IEEE.

Definition prec32 : Z := 24.
Definition emax32 : Z := 128.
Definition prec64 : Z := 53.
Definition emax64 : Z := 1024.

Definition round32 (x : spec_float) : spec_float :=
  match x with
  | S754_finite s m e => binary_round prec32 emax32 s m e
  | _ => x
  end.

Definition round64 (x : spec_float) : spec_float :=
  match x with
  | S754_finite s m e => binary_round prec64 emax64 s m e
  | _ => x
  end.

Definition of_int32 (z : Z) : spec_float := binary_normalize prec32 emax32 z 0 false.
Definition of_int64 (z : Z) : spec_float := binary_normalize prec64 emax64 z 0 false.

Definition trunc (x : spec_float) : Z :=
  match x with
  | S754_finite s m e =>
      let a := if 0 <=? e then Z.shiftl (Z.pos m) e else Z.shiftr (Z.pos m) (- e) in
      if s then - a else a
  | _ => 0
  end.

Definition to_u32 (x : spec_float) : Z := wrap32 (trunc x).

(** The two laws of the interface. *)
Definition to_u32_range (x : spec_float) : u32 (to_u32 x) :=
  Z.mod_pos_bound (trunc x) (2 ^ 32) eq_refl.

Definition to_u32_1e6 : to_u32 (of_int64 1000000) = 1000000 := eq_refl.

#[export] Instance arith : FloatArith := {|
  float := spec_float;
  double := spec_float;
  float_of_int := of_int32;
  fdiv := SFdiv prec32 emax32;
  float_to_double := round64;
  double_to_float := round32;
  sqrt_of_float := fun x => SFsqrt prec64 emax64 (round64 x);
  sqrt_of_int := fun z => SFsqrt prec64 emax64 (of_int64 z);
  dmul := SFmul prec64 emax64;
  ddiv := SFdiv prec64 emax64;
  lit_0_676 := SFdiv prec64 emax64 (of_int64 676) (of_int64 1000);
  lit_1e6 := of_int64 1000000;
  lit_10_0 := of_int64 10;
  double_to_u32 := to_u32;
  double_to_u32_range := to_u32_range;
  double_to_u32_1e6 := to_u32_1e6
|}.

End IEEE.

Section Invariants.
Context {FA : FloatArith}.

(** Every field of type [uint32_t] / [delay_t] holds a 32-bit value, the
    array has [MICRO_LEVELS] cells and [_shift] is a [uint8_t]. *)
Record well_typed (s : stepper) : Prop := {
  wt_len : length (_delay0 s) = MICRO_LEVELS;
  wt_delay0 : Forall u32 (_delay0 s);
  wt_delay : u32 (_delay s);
  wt_smooth : u32 (_smooth_delay s);
  wt_target : u32 (_target_delay s);
  wt_shift : 0 <= _shift s < 2 ^ 8
}.

(** [v] is a multiple of [2^k]: its [k] low bits are clear. *)
Definition aligned (k v : Z) : Prop := v mod 2 ^ k = 0.

(** The state [shift_up] leaves behind: the delays are multiples of
    [2^_shift] and the largest of the three delays that [shift_up]
    inspects is at or above the threshold, below twice the threshold when
    it had to be shifted. *)
Record scaled (s : stepper) : Prop := {
  sc_typed : well_typed s;
  sc_shift : _shift s <= 30;
  sc_delay0 : Forall (aligned (_shift s)) (_delay0 s);
  sc_delay : aligned (_shift s) (_delay s);
  sc_smooth : aligned (_shift s) (_smooth_delay s);
  sc_target : aligned (_shift s) (_target_delay s);
  sc_floor : SHIFT_THRESHOLD <= max_delay_of s;
  sc_ceil : _shift s <> 0 -> max_delay_of s < 2 * SHIFT_THRESHOLD
}.

(** The states of an engine that a caller can hold: what the constructor
    returns, closed under the public member functions. *)
Inductive reachable : stepper -> Prop :=
| reach_stepper fuel dir_pin step_pin enable_pin micro0_pin micro1_pin
    micro2_pin forward_value smooth_delay mem s io :
    u32 smooth_delay -> length mem = MICRO_LEVELS -> Forall u32 mem ->
    stepper_stepper fuel dir_pin step_pin enable_pin micro0_pin micro1_pin
      micro2_pin forward_value smooth_delay mem = Some (s, io) ->
    reachable s
| reach_calibrate_position fuel pos s s' :
    reachable s -> calibrate_position fuel pos s = Some s' -> reachable s'
| reach_on now s : reachable s -> reachable (snd (fst (on now s)))
| reach_off now s : reachable s -> reachable (snd (fst (off now s)))
| reach_acceleration fuel accel s s' :
    reachable s -> acceleration fuel accel s = Some s' -> reachable s'
| reach_target_pos pos s : reachable s -> reachable (target_pos pos s)
| reach_target_speed fuel speed s s' :
    reachable s -> target_speed fuel speed s = Some s' -> reachable s'
| reach_step s : reachable s -> reachable (snd (step s)).

(** All delay fields divided by [2^k], [_shift] reset: the effect of
    [shift_down] at [k = _shift]. *)
Definition scale_down_by (k : Z) (s : stepper) : stepper :=
  mk_stepper (_dir_pin s) (_step_pin s) (_enable_pin s) (_micro0_pin s)
    (_micro1_pin s) (_micro2_pin s) (_forward_value s) (_dir s) (_pos s)
    (_target_pos s) (_accel_steps s) (_micro s)
    (map (fun v => shr32 v k) (_delay0 s)) (shr32 (_delay s) k)
    (shr32 (_smooth_delay s) k) (shr32 (_target_delay s) k) 0
    (_step s) (_state s).

(** All delay fields multiplied by [2^k] modulo [2^32], [_shift] set to
    [k]: the effect of [shift_up] when its loop runs [k] times. *)
Definition scale_up_by (k : Z) (s : stepper) : stepper :=
  mk_stepper (_dir_pin s) (_step_pin s) (_enable_pin s) (_micro0_pin s)
    (_micro1_pin s) (_micro2_pin s) (_forward_value s) (_dir s) (_pos s)
    (_target_pos s) (_accel_steps s) (_micro s)
    (map (fun v => shl32 v k) (_delay0 s)) (shl32 (_delay s) k)
    (shl32 (_smooth_delay s) k) (shl32 (_target_delay s) k) k
    (_step s) (_state s).

(** The state on which [acceleration] calls [shift_up]. *)
Definition acceleration_body (accel : float) (s : stepper) : stepper :=
  let s1 := scale_down_by (_shift s) s in
  set_delay0 (map (spec_start_delay accel) (seq 0 MICRO_LEVELS))
    (set_delay (get (_delay0 s1) (Z.to_nat (_micro s1))) s1).

(** The state on which [target_speed] calls [shift_up]. *)
Definition target_speed_body (speed : float) (s : stepper) : stepper :=
  let s1 := set_target_delay
              (double_to_u32 (ddiv lit_1e6 (float_to_double speed)))
              (scale_down_by (_shift s) s) in
  if negb (is_stopped s) && negb (state_eqb (_state s) OFF) then
    if _target_delay s1 >? _delay s1 then set_state DECEL s1
    else set_state ACCEL s1
  else s1.

(** The fields that neither [shift_down] nor [shift_up] writes. *)
Definition same_motion (s s' : stepper) : Prop :=
  _state s' = _state s /\ _pos s' = _pos s /\
  _target_pos s' = _target_pos s /\ _accel_steps s' = _accel_steps s /\
  _micro s' = _micro s.

End Invariants.

(** ** Relations between the state before and after a call *)

Section Relations.
Context {FA : FloatArith}.

(** The fields set at construction that no member function writes. *)
Definition same_identity (s s' : stepper) : Prop :=
  _dir_pin s' = _dir_pin s /\ _step_pin s' = _step_pin s /\
  _enable_pin s' = _enable_pin s /\ _micro0_pin s' = _micro0_pin s /\
  _micro1_pin s' = _micro1_pin s /\ _micro2_pin s' = _micro2_pin s /\
  _forward_value s' = _forward_value s /\ _dir s' = _dir s /\
  _micro s' = _micro s /\ _step s' = _step s.

(** No acceleration step is counted and the phase [TARGET_SPEED] is not
    entered, if that was so before. *)
Definition quiet (s s' : stepper) : Prop :=
  (_accel_steps s = 0 -> _accel_steps s' = 0) /\
  (_state s <> TARGET_SPEED -> _state s' <> TARGET_SPEED).

(** The bookkeeping that only a working [step] would change. *)
Definition at_rest (s : stepper) : Prop :=
  _accel_steps s = 0 /\ _micro s = 0 /\ _dir s = 1 /\ _step s = 0 /\
  _state s <> TARGET_SPEED.

(** A relation that every assignment of the member functions respects. *)
Class Frame (R : stepper -> stepper -> Prop) : Prop := {
  fr_refl : forall s, R s s;
  fr_trans : forall a b c, R a b -> R b c -> R a c;
  fr_delay0 : forall v s, R s (set_delay0 v s);
  fr_delay : forall v s, R s (set_delay v s);
  fr_target_delay : forall v s, R s (set_target_delay v s);
  fr_smooth_delay : forall v s, R s (set_smooth_delay v s);
  fr_shift : forall v s, R s (set_shift v s);
  fr_pos : forall v s, R s (set_pos v s);
  fr_target_pos : forall v s, R s (set_target_pos v s);
  fr_accel_steps : forall s, R s (set_accel_steps 0 s);
  fr_state : forall v s, v <> TARGET_SPEED -> R s (set_state v s)
}.

(** The states an engine goes through from [s0] under the public member
    functions. *)
Inductive evolves (s0 : stepper) : stepper -> Prop :=
| ev_here : evolves s0 s0
| ev_calibrate_position fuel pos s s' :
    evolves s0 s -> calibrate_position fuel pos s = Some s' -> evolves s0 s'
| ev_on now s : evolves s0 s -> evolves s0 (snd (fst (on now s)))
| ev_off now s : evolves s0 s -> evolves s0 (snd (fst (off now s)))
| ev_acceleration fuel accel s s' :
    evolves s0 s -> acceleration fuel accel s = Some s' -> evolves s0 s'
| ev_target_pos pos s : evolves s0 s -> evolves s0 (target_pos pos s)
| ev_target_speed fuel speed s s' :
    evolves s0 s -> target_speed fuel speed s = Some s' -> evolves s0 s'
| ev_step s : evolves s0 s -> evolves s0 (snd (step s)).

End Relations.

(** ** Concrete engines, under IEEE arithmetic *)

Module Bench.

Import IEEE.

Definition zeros : list Z := [0; 0; 0; 0; 0; 0].

(** [10.0f], [1.0f], [2e6f] and [1e14f]. *)
Definition f10 : float := double_to_float lit_10_0.
Definition f1 : float := float_of_int 1.
Definition f2e6 : float := float_of_int 2000000.
Definition f1e14 : float := float_of_int 100000000000000.

(** The engine [stepper(1, 2, 3, 4, 5, 6, 1, 0)], built on zeroed storage. *)
Definition fresh_state : stepper :=
  mk_stepper 1 2 3 4 5 6 1 1 0 0 0 0
    [218899456; 309571584; 437799936; 619143168; 875600896; 1238287360]
    0 0 102400000 10 0 ACCEL.

Definition fresh_io : list io_event :=
  [ pinMode 1 OUTPUT; pinMode 2 OUTPUT; pinMode 3 OUTPUT; pinMode 4 OUTPUT;
    pinMode 5 OUTPUT; pinMode 6 OUTPUT; digitalWrite 1 1; digitalWrite 3 1;
    digitalWrite 4 0; digitalWrite 5 0; digitalWrite 6 0 ].

(** [fresh_state] before [shift_up] has scaled it. *)
Definition unscaled_state : stepper :=
  mk_stepper 1 2 3 4 5 6 1 1 0 0 0 0
    [213769; 302316; 427539; 604632; 855079; 1209265]
    0 0 100000 0 0 ACCEL.

(** [fresh_state] after [acceleration(10.0)] and [target_pos(5)]: on its
    way, accelerating. *)
Definition accelerating_state : stepper :=
  mk_stepper 1 2 3 4 5 6 1 1 0 5 0 0
    [218899456; 309571584; 437799936; 619143168; 875600896; 1238287360]
    218899456 0 102400000 10 0 ACCEL.

(** [accelerating_state] after [target_speed(1.0)]: decelerating. *)
Definition decelerating_state : stepper :=
  mk_stepper 1 2 3 4 5 6 1 1 0 5 0 0
    [218899456; 309571584; 437799936; 619143168; 875600896; 1238287360]
    218899456 0 1024000000 10 0 DECEL.

(** The state on which [acceleration(1e14)] calls [shift_up] in
    [fast_state]: the three delays that [shift_up] inspects are zero. *)
Definition zero_state : stepper :=
  mk_stepper 1 2 3 4 5 6 1 1 0 0 0 0 [0; 0; 0; 0; 0; 0]
    213769 0 0 0 0 ACCEL.

(** [fresh_state] after [target_speed(2e6)]. *)
Definition fast_state : stepper :=
  mk_stepper 1 2 3 4 5 6 1 1 0 0 0 0
    [218899456; 309571584; 437799936; 619143168; 875600896; 1238287360]
    0 0 0 10 0 ACCEL.

(** The table of [acceleration(a)] before it is shifted, and the check
    that its entries grow by [sqrt(2^level)] up to the truncation, each
    one above the one before. *)
Definition ramp_table (a : Z) : list Z :=
  map (spec_start_delay (float_of_int a)) (seq 0 MICRO_LEVELS).

Definition table_ok (a : Z) : bool :=
  let e := ramp_table a in
  let e0 := get e 0 in
  let e5 := get e (MICRO_LEVELS - 1) in
  (0 <? e5) &&
  forallb (fun l =>
    let el := get e l in
    (e0 * e0 * 2 ^ Z.of_nat l <? (el + 1) * (el + 1)) &&
    (el * el <? (e0 + 1) * (e0 + 1) * 2 ^ Z.of_nat l) &&
    (e0 <=? el) && (el <=? e5)) (seq 0 MICRO_LEVELS) &&
  forallb (fun l => get e l <? get e (S l)) (seq 0 (MICRO_LEVELS - 1)).

Definition MAX_CHECKED_ACCEL : Z := 1000.

End Bench.

(** ** The two readings of the ramp table

    [x] is the entry of [level], [y] the entry of level 0 and [u] the
    unit [2^_shift] in which both are held. *)


(** [x = y * sqrt(2^level)], both truncated to a multiple of [u]. *)
Definition grows_by_sqrt (x y u : Z) (level : nat) : Prop :=
  y * y * 2 ^ Z.of_nat level < (x + u) * (x + u) /\
  x * x < (y + u) * (y + u) * 2 ^ Z.of_nat level.

(** ** Further concrete engines and readings *)

Module Bench2.

Import IEEE.


(** A state with 32-bit fields whose delays are not multiples of
    [2^_shift], and what [shift_down] then [shift_up] make of it. *)
Definition lossy_state : stepper :=
  mk_stepper 1 2 3 4 5 6 1 1 0 0 0 0 [15; 16; 17; 23; 7; 1073741824]
    23 9 12 3 0 ACCEL.

Definition lossy_state_back : stepper :=
  mk_stepper 1 2 3 4 5 6 1 1 0 0 0 0 [8; 16; 16; 16; 0; 1073741824]
    16 8 8 3 0 ACCEL.

End Bench2.

(** [a] and [b] differ by at most one unit in the last place. *)
Definition within_one_bit (a b : Z) : Prop := Z.abs (a - b) <= 1.

(** * Properties *)

(** ** The loop of [shift_up] *)

Section ShiftLoop.
Context {FA : FloatArith}.

Lemma SHIFT_THRESHOLD_eq : SHIFT_THRESHOLD = 2 ^ 30.
Proof. reflexivity. Qed.

Lemma shl32_1_small m : 0 <= m < 2 ^ 30 -> shl32 m 1 = 2 * m.
Proof.
  intros H. unfold shl32, wrap32. rewrite Z.shiftl_mul_pow2 by lia.
  change (2 ^ 1) with 2. rewrite Z.mod_small; lia.
Qed.

Lemma shift_up_loop_zero fuel sh : shift_up_loop fuel sh 0 = None.
Proof.
  revert sh. induction fuel as [|n IH]; intros sh; simpl.
  - reflexivity.
  - change (shl32 0 1) with 0. apply IH.
Qed.

Lemma shift_up_loop_spec fuel : forall sh m sh' m',
  0 <= m -> 0 <= sh < 2 ^ 8 ->
  shift_up_loop fuel sh m = Some (sh', m') ->
  exists k : nat,
    m' = m * 2 ^ Z.of_nat k /\
    sh' = (sh + Z.of_nat k) mod 2 ^ 8 /\
    SHIFT_THRESHOLD <= m' /\
    (forall j, 0 <= j < Z.of_nat k -> m * 2 ^ j < SHIFT_THRESHOLD).
Proof.
  induction fuel as [|n IH]; intros sh m sh' m' Hm Hs H; simpl in H;
    destruct (Z.ltb_spec m SHIFT_THRESHOLD) as [Hlt|Hge]; try discriminate.
  - injection H as <- <-. exists 0%nat. simpl. rewrite Z.mul_1_r, Z.add_0_r.
    rewrite Z.mod_small by lia. repeat split; try lia.
  - rewrite SHIFT_THRESHOLD_eq in Hlt.
    rewrite shl32_1_small in H by lia.
    apply IH in H; [|lia|unfold wrap8; apply Z.mod_pos_bound; lia].
    destruct H as (k & Hm' & Hsh & Hth & Hmin).
    exists (S k). repeat split; try lia.
    + rewrite Hm'. rewrite Nat2Z.inj_succ, Z.pow_succ_r by lia. ring.
    + rewrite Hsh. unfold wrap8. rewrite Nat2Z.inj_succ.
      rewrite Zplus_mod_idemp_l. f_equal. lia.
    + intros j Hj. rewrite SHIFT_THRESHOLD_eq.
      destruct (Z.eq_dec j 0) as [->|Hj0]; [simpl; lia|].
      specialize (Hmin (j - 1)). rewrite SHIFT_THRESHOLD_eq in Hmin.
      replace j with (Z.succ (j - 1)) by lia. rewrite Z.pow_succ_r by lia.
      lia.
  - injection H as <- <-. exists 0%nat. simpl. rewrite Z.mul_1_r, Z.add_0_r.
    rewrite Z.mod_small by lia. repeat split; try lia.
Qed.

(** The number of doublings is at most 30 when the loop starts from a
    nonzero value. *)
Lemma doublings_le_30 m k :
  0 < m -> (forall j, 0 <= j < Z.of_nat k -> m * 2 ^ j < SHIFT_THRESHOLD) ->
  Z.of_nat k <= 30.
Proof.
  intros Hm H. destruct (Z_le_gt_dec (Z.of_nat k) 30) as [|Hgt]; [assumption|].
  specialize (H 30). rewrite SHIFT_THRESHOLD_eq in H. lia.
Qed.

Lemma shift_up_loop_exits n : forall sh m,
  0 < m -> SHIFT_THRESHOLD <= m * 2 ^ Z.of_nat n ->
  exists r, shift_up_loop n sh m = Some r.
Proof.
  induction n as [|n IH]; intros sh m Hm H; simpl;
    destruct (Z.ltb_spec m SHIFT_THRESHOLD) as [Hlt|Hge]; eauto.
  - simpl in H. lia.
  - rewrite SHIFT_THRESHOLD_eq in Hlt. rewrite shl32_1_small by lia.
    apply IH; [lia|]. rewrite Nat2Z.inj_succ, Z.pow_succ_r in H by lia. lia.
Qed.

Lemma shift_up_loop_30 sh m :
  0 < m -> exists r, shift_up_loop 30 sh m = Some r.
Proof.
  intros Hm. apply shift_up_loop_exits; [assumption|].
  rewrite SHIFT_THRESHOLD_eq. change (2 ^ Z.of_nat 30) with (2 ^ 30). lia.
Qed.

Lemma shift_up_loop_more fuel : forall sh m r n,
  shift_up_loop fuel sh m = Some r -> shift_up_loop (fuel + n) sh m = Some r.
Proof.
  induction fuel as [|f IH]; intros sh m r n H; simpl in H.
  - destruct (Z.ltb_spec m SHIFT_THRESHOLD) as [Hlt|Hge]; [discriminate|].
    destruct n; simpl; destruct (Z.ltb_spec m SHIFT_THRESHOLD); try lia; assumption.
  - simpl. destruct (m <? SHIFT_THRESHOLD); [apply IH|]; assumption.
Qed.

End ShiftLoop.

(** ** Normal forms of the two scaling functions *)

(** Expose the [MICRO_LEVELS] cells of [_delay0 s], given [H] on its
    length. *)
Ltac six_cells s H :=
  destruct s as [? ? ? ? ? ? ? ? ? ? ? ? d0 ? ? ? ? ? ?]; simpl in H;
  destruct d0 as [|? [|? [|? [|? [|? [|? [|? ?]]]]]]]; try discriminate H.

Section NormalForms.
Context {FA : FloatArith}.

Lemma shift_down_eq s :
  length (_delay0 s) = MICRO_LEVELS ->
  shift_down s = scale_down_by (_shift s) s.
Proof. intros H. six_cells s H. reflexivity. Qed.

Lemma shift_up_eq fuel s :
  length (_delay0 s) = MICRO_LEVELS -> _shift s = 0 ->
  shift_up fuel s =
  (r <- shift_up_loop fuel 0 (max_delay_of s) ;; Some (scale_up_by (fst r) s)).
Proof.
  intros H H0. six_cells s H. simpl in H0. subst.
  unfold shift_up. simpl _shift. simpl negb. cbv iota.
  destruct (shift_up_loop fuel 0 _) as [[k m]|]; reflexivity.
Qed.

End NormalForms.

(** ** Shifts on 32-bit values *)

Section Shifts.
Context {FA : FloatArith}.

Lemma shr32_div v k : 0 <= k -> shr32 v k = v / 2 ^ k.
Proof. intros. unfold shr32. now rewrite Z.shiftr_div_pow2. Qed.

Lemma shr32_u32 v k : u32 v -> 0 <= k -> u32 (shr32 v k).
Proof.
  unfold u32. intros [H0 H1] Hk. rewrite shr32_div by assumption.
  assert (0 < 2 ^ k) by (apply Z.pow_pos_nonneg; lia).
  split; [apply Z.div_pos; lia|].
  apply Z.le_lt_trans with v; [|assumption].
  apply Z.div_le_upper_bound; nia.
Qed.

Lemma shr32_mono a b k : 0 <= k -> a <= b -> shr32 a k <= shr32 b k.
Proof.
  intros Hk H. rewrite !shr32_div by assumption.
  apply Z.div_le_mono; [apply Z.pow_pos_nonneg; lia|assumption].
Qed.

Lemma shr32_max a b k :
  0 <= k -> Z.max (shr32 a k) (shr32 b k) = shr32 (Z.max a b) k.
Proof.
  intros Hk. destruct (Z.le_ge_cases a b) as [H|H].
  - rewrite (Z.max_r a b) by assumption. apply Z.max_r. now apply shr32_mono.
  - rewrite (Z.max_l a b) by assumption. apply Z.max_l. now apply shr32_mono.
Qed.

Lemma shl32_u32 v k : u32 (shl32 v k).
Proof. unfold shl32, wrap32, u32. apply Z.mod_pos_bound. lia. Qed.

Lemma shl32_small v k :
  0 <= k -> 0 <= v -> v * 2 ^ k < 2 ^ 32 -> shl32 v k = v * 2 ^ k.
Proof.
  intros Hk Hv H. unfold shl32, wrap32. rewrite Z.shiftl_mul_pow2 by assumption.
  apply Z.mod_small. split; [|assumption].
  apply Z.mul_nonneg_nonneg; [assumption|]. apply Z.pow_nonneg. lia.
Qed.

Lemma shl32_0 v : u32 v -> shl32 v 0 = v.
Proof.
  intros H. unfold u32 in H. rewrite shl32_small; simpl; lia.
Qed.

Lemma shl32_aligned v k : 0 <= k <= 32 -> aligned k (shl32 v k).
Proof.
  intros Hk. unfold aligned, shl32, wrap32.
  rewrite Z.shiftl_mul_pow2 by lia.
  assert (0 < 2 ^ k) by (apply Z.pow_pos_nonneg; lia).
  rewrite Z.mod_mod_divide.
  - apply Z.mod_mul. lia.
  - exists (2 ^ (32 - k)). rewrite <- Z.pow_add_r by lia. f_equal. lia.
Qed.

Lemma shl32_shr32 v k :
  u32 v -> 0 <= k -> aligned k v -> shl32 (shr32 v k) k = v.
Proof.
  unfold u32, aligned. intros Hv Hk Ha.
  assert (0 < 2 ^ k) by (apply Z.pow_pos_nonneg; lia).
  assert (E : v / 2 ^ k * 2 ^ k = v).
  { pose proof (Z.div_mod v (2 ^ k)). lia. }
  rewrite shr32_div by assumption.
  assert (0 <= v / 2 ^ k) by (apply Z.div_pos; lia).
  rewrite shl32_small; lia.
Qed.

Lemma aligned_0 v : aligned 0 v.
Proof. unfold aligned. simpl. apply Z.mod_1_r. Qed.

Lemma get_map f l i : f 0 = 0 -> get (map f l) i = f (get l i).
Proof.
  intros H. unfold get. rewrite <- H at 1. apply map_nth.
Qed.

Lemma get_Forall (P : Z -> Prop) l i : P 0 -> Forall P l -> P (get l i).
Proof.
  intros H0 H. unfold get. revert i.
  induction H as [|x l Hx Hl IH]; intros [|i]; simpl; auto.
Qed.

Lemma shr32_zero k : shr32 0 k = 0.
Proof. apply Z.shiftr_0_l. Qed.

Lemma shl32_zero k : shl32 0 k = 0.
Proof. unfold shl32. now rewrite Z.shiftl_0_l. Qed.

Lemma max_delay_of_u32 s : well_typed s -> u32 (max_delay_of s).
Proof.
  intros [_ H0 _ Hs Ht _]. unfold max_delay_of.
  assert (u32 (get (_delay0 s) (MICRO_LEVELS - 1)))
    by (apply get_Forall; [unfold u32; lia|assumption]).
  unfold u32 in *. lia.
Qed.

Lemma max_delay_of_scale_down k s :
  0 <= k -> max_delay_of (scale_down_by k s) = shr32 (max_delay_of s) k.
Proof.
  intros Hk. unfold max_delay_of, scale_down_by. simpl.
  rewrite (get_map (fun v => shr32 v k)) by apply shr32_zero.
  now rewrite !shr32_max.
Qed.

Lemma max_delay_of_scale_up k s :
  well_typed s -> 0 <= k -> max_delay_of s * 2 ^ k < 2 ^ 32 ->
  max_delay_of (scale_up_by k s) = max_delay_of s * 2 ^ k.
Proof.
  intros [_ H0 _ Hs Ht _] Hk Hm. unfold max_delay_of in *.
  cbn [scale_up_by _delay0 _target_delay _smooth_delay].
  rewrite (get_map (fun v => shl32 v k)) by apply shl32_zero.
  assert (Hg : u32 (get (_delay0 s) (MICRO_LEVELS - 1)))
    by (apply get_Forall; [unfold u32; lia|assumption]).
  assert (Hp : 0 < 2 ^ k) by (apply Z.pow_pos_nonneg; lia).
  unfold u32 in *.
  set (a := get (_delay0 s) (MICRO_LEVELS - 1)) in *.
  set (b := _target_delay s) in *. set (c := _smooth_delay s) in *.
  rewrite <- !Z.mul_max_distr_nonneg_r in * by lia.
  set (p := 2 ^ k) in *.
  assert (0 <= a * p /\ 0 <= b * p /\ 0 <= c * p) as (? & ? & ?) by nia.
  rewrite !shl32_small; fold p; lia.
Qed.

Lemma well_typed_scale_down k s :
  well_typed s -> 0 <= k -> well_typed (scale_down_by k s).
Proof.
  intros [H1 H2 H3 H4 H5 H6] Hk. constructor; simpl.
  - now rewrite length_map.
  - apply Forall_map. eapply Forall_impl; [|exact H2].
    intros a Ha. now apply shr32_u32.
  - now apply shr32_u32.
  - now apply shr32_u32.
  - now apply shr32_u32.
  - lia.
Qed.

(** What [shift_up] does from [_shift = 0]. *)
Lemma shift_up_spec fuel s s' :
  well_typed s -> _shift s = 0 -> shift_up fuel s = Some s' ->
  exists k,
    0 <= k <= 30 /\ s' = scale_up_by k s /\
    0 < max_delay_of s /\
    SHIFT_THRESHOLD <= max_delay_of s * 2 ^ k /\
    (forall j, 0 <= j < k -> max_delay_of s * 2 ^ j < SHIFT_THRESHOLD).
Proof.
  intros Hwt H0 H. rewrite shift_up_eq in H by (assumption || apply Hwt).
  destruct (shift_up_loop fuel 0 (max_delay_of s)) as [[sh m]|] eqn:E;
    [|discriminate].
  injection H as <-. simpl.
  pose proof (max_delay_of_u32 s Hwt) as Hu. unfold u32 in Hu.
  assert (Hpos : 0 < max_delay_of s).
  { destruct (Z.eq_dec (max_delay_of s) 0) as [Hz|]; [|lia].
    rewrite Hz, shift_up_loop_zero in E. discriminate. }
  apply shift_up_loop_spec in E; [|lia|lia].
  destruct E as (k & Hm & Hsh & Hth & Hmin).
  pose proof (doublings_le_30 _ _ Hpos Hmin) as Hk.
  rewrite Z.add_0_l, Z.mod_small in Hsh by lia. subst sh m.
  exists (Z.of_nat k). repeat split; try lia; assumption.
Qed.

Lemma scaled_scale_up k s :
  well_typed s -> 0 <= k <= 30 -> 0 < max_delay_of s ->
  SHIFT_THRESHOLD <= max_delay_of s * 2 ^ k ->
  (forall j, 0 <= j < k -> max_delay_of s * 2 ^ j < SHIFT_THRESHOLD) ->
  scaled (scale_up_by k s).
Proof.
  intros Hwt Hk Hpos Hth Hmin.
  pose proof (max_delay_of_u32 s Hwt) as Hu. unfold u32 in Hu.
  rewrite SHIFT_THRESHOLD_eq in *.
  assert (Hlt : k <> 0 -> max_delay_of s * 2 ^ k < 2 ^ 31).
  { intros Hk0. specialize (Hmin (k - 1)).
    replace k with (Z.succ (k - 1)) by lia. rewrite Z.pow_succ_r by lia.
    lia. }
  assert (Hm : max_delay_of s * 2 ^ k < 2 ^ 32).
  { destruct (Z.eq_dec k 0) as [->|Hk0]; [simpl; lia|]. specialize (Hlt Hk0). lia. }
  pose proof Hwt as [H1 H2 H3 H4 H5 H6].
  constructor.
  - constructor; simpl.
    + now rewrite length_map.
    + apply Forall_map. apply Forall_forall. intros; apply shl32_u32.
    + apply shl32_u32.
    + apply shl32_u32.
    + apply shl32_u32.
    + lia.
  - simpl. lia.
  - simpl. apply Forall_map. apply Forall_forall.
    intros; apply shl32_aligned; lia.
  - simpl. apply shl32_aligned; lia.
  - simpl. apply shl32_aligned; lia.
  - simpl. apply shl32_aligned; lia.
  - rewrite max_delay_of_scale_up by (assumption || lia).
    rewrite SHIFT_THRESHOLD_eq. lia.
  - intros Hk0. change (_shift (scale_up_by k s)) with k in Hk0.
    rewrite max_delay_of_scale_up by (assumption || lia).
    rewrite SHIFT_THRESHOLD_eq. specialize (Hlt Hk0). lia.
Qed.

Lemma shift_up_scaled fuel s s' :
  well_typed s -> _shift s = 0 -> shift_up fuel s = Some s' -> scaled s'.
Proof.
  intros Hwt H0 H.
  destruct (shift_up_spec _ _ _ Hwt H0 H) as (k & Hk & -> & Hpos & Hth & Hmin).
  now apply scaled_scale_up.
Qed.

End Shifts.

(** ** The member functions and the invariant *)

Section MemberFunctions.
Context {FA : FloatArith}.

Lemma shift_up_returns fuel s :
  well_typed s -> _shift s = 0 -> 0 < max_delay_of s -> (30 <= fuel)%nat ->
  exists s', shift_up fuel s = Some s'.
Proof.
  intros Hwt H0 Hpos Hf. rewrite shift_up_eq by (assumption || apply Hwt).
  destruct (shift_up_loop_30 0 _ Hpos) as [r Hr].
  replace fuel with (30 + (fuel - 30))%nat by lia.
  rewrite (shift_up_loop_more _ _ _ _ _ Hr). eauto.
Qed.

Lemma shift_up_hangs fuel s :
  length (_delay0 s) = MICRO_LEVELS -> _shift s = 0 -> max_delay_of s = 0 ->
  shift_up fuel s = None.
Proof.
  intros Hl H0 Hz. rewrite shift_up_eq by assumption.
  now rewrite Hz, shift_up_loop_zero.
Qed.

Lemma shift_up_nonzero_shift fuel s : _shift s <> 0 -> shift_up fuel s = Some s.
Proof.
  intros H. unfold shift_up. destruct (Z.eqb_spec (_shift s) 0); [contradiction|].
  reflexivity.
Qed.

Lemma acceleration_eq fuel accel s :
  length (_delay0 s) = MICRO_LEVELS -> is_stopped s = true ->
  acceleration fuel accel s = shift_up fuel (acceleration_body accel s).
Proof.
  intros Hl Hs. unfold acceleration. rewrite Hs. simpl negb. cbv iota.
  rewrite shift_down_eq by assumption.
  six_cells s Hl. reflexivity.
Qed.

Lemma target_speed_eq fuel speed s :
  length (_delay0 s) = MICRO_LEVELS ->
  target_speed fuel speed s = shift_up fuel (target_speed_body speed s).
Proof.
  intros Hl. unfold target_speed. rewrite shift_down_eq by assumption.
  reflexivity.
Qed.

Lemma calibrate_position_eq fuel pos s :
  length (_delay0 s) = MICRO_LEVELS -> is_stopped s = true ->
  calibrate_position fuel pos s =
  shift_up fuel (set_pos pos (scale_down_by (_shift s) s)).
Proof.
  intros Hl Hs. unfold calibrate_position. rewrite Hs. simpl negb. cbv iota.
  now rewrite shift_down_eq.
Qed.

Lemma well_typed_acceleration_body accel s :
  well_typed s -> well_typed (acceleration_body accel s).
Proof.
  intros Hwt. pose proof Hwt as [H1 H2 H3 H4 H5 H6].
  pose proof (well_typed_scale_down (_shift s) s Hwt (proj1 H6))
    as [G1 G2 G3 G4 G5 G6].
  constructor;
    cbn [acceleration_body set_delay0 set_delay _delay0 _delay _smooth_delay
         _target_delay _shift]; try assumption.
  - now rewrite length_map, length_seq.
  - apply Forall_map. apply Forall_forall. intros; apply double_to_u32_range.
  - apply get_Forall; [unfold u32; lia|assumption].
Qed.

Lemma well_typed_target_speed_body speed s :
  well_typed s -> well_typed (target_speed_body speed s).
Proof.
  intros Hwt. pose proof Hwt as [H1 H2 H3 H4 H5 H6].
  pose proof (well_typed_scale_down (_shift s) s Hwt (proj1 H6))
    as [G1 G2 G3 G4 G5 G6].
  unfold target_speed_body. cbv zeta.
  destruct (negb (is_stopped s) && negb (state_eqb (_state s) OFF));
    [destruct (_ >? _)|]; constructor;
    cbn [set_target_delay set_state _delay0 _delay _smooth_delay
         _target_delay _shift]; try assumption;
    apply double_to_u32_range.
Qed.

Lemma well_typed_set_pos pos s : well_typed s -> well_typed (set_pos pos s).
Proof. intros [H1 H2 H3 H4 H5 H6]. constructor; assumption. Qed.

Lemma shift_target_speed_body speed s : _shift (target_speed_body speed s) = 0.
Proof.
  unfold target_speed_body. cbv zeta.
  destruct (negb (is_stopped s) && negb (state_eqb (_state s) OFF));
    [destruct (_ >? _)|]; reflexivity.
Qed.

Lemma scaled_target_speed fuel speed s s' :
  well_typed s -> target_speed fuel speed s = Some s' -> scaled s'.
Proof.
  intros Hwt H. rewrite target_speed_eq in H by apply Hwt.
  eapply shift_up_scaled; [| |exact H].
  - now apply well_typed_target_speed_body.
  - apply shift_target_speed_body.
Qed.

Lemma scaled_acceleration fuel accel s s' :
  well_typed s -> is_stopped s = true ->
  acceleration fuel accel s = Some s' -> scaled s'.
Proof.
  intros Hwt Hs H. rewrite acceleration_eq in H by (assumption || apply Hwt).
  eapply shift_up_scaled; [| |exact H].
  - now apply well_typed_acceleration_body.
  - reflexivity.
Qed.

Lemma scaled_calibrate_position fuel pos s s' :
  well_typed s -> is_stopped s = true ->
  calibrate_position fuel pos s = Some s' -> scaled s'.
Proof.
  intros Hwt Hs H.
  rewrite calibrate_position_eq in H by (assumption || apply Hwt).
  eapply shift_up_scaled; [| |exact H].
  - apply well_typed_set_pos, well_typed_scale_down; [assumption|apply Hwt].
  - reflexivity.
Qed.

Lemma not_stopped_acceleration fuel accel s :
  is_stopped s = false -> acceleration fuel accel s = Some s.
Proof. intros H. unfold acceleration. now rewrite H. Qed.

Lemma not_stopped_calibrate_position fuel pos s :
  is_stopped s = false -> calibrate_position fuel pos s = Some s.
Proof. intros H. unfold calibrate_position. now rewrite H. Qed.

Lemma aligned_zero k : aligned k 0.
Proof. unfold aligned. apply Zmod_0_l. Qed.

Lemma scaled_same_delays s s' :
  _delay0 s' = _delay0 s -> _delay s' = _delay s ->
  _smooth_delay s' = _smooth_delay s -> _target_delay s' = _target_delay s ->
  _shift s' = _shift s -> scaled s -> scaled s'.
Proof.
  intros E0 E1 E2 E3 E4 [[H1 H2 H3 H4 H5 H6] G1 G2 G3 G4 G5 G6 G7].
  unfold max_delay_of in *.
  constructor; [constructor|..]; unfold max_delay_of;
    rewrite ?E0, ?E1, ?E2, ?E3, ?E4; assumption.
Qed.

Lemma scaled_off now s : scaled s -> scaled (snd (fst (off now s))).
Proof.
  intros [[H1 H2 H3 H4 H5 H6] G1 G2 G3 G4 G5 G6 G7].
  unfold max_delay_of in *.
  constructor; [constructor|..]; unfold max_delay_of;
    cbn [off fst snd set_state set_delay set_accel_steps _delay0 _delay
         _smooth_delay _target_delay _shift _micro]; try assumption.
  - apply get_Forall; [unfold u32; lia|assumption].
  - apply get_Forall; [apply aligned_zero|assumption].
Qed.

Lemma well_typed_initial p1 p2 p3 p4 p5 p6 fv sd mem :
  u32 sd -> length mem = MICRO_LEVELS -> Forall u32 mem ->
  well_typed (mk_stepper p1 p2 p3 p4 p5 p6 fv 1 0 0 0 0 mem 0 sd
                (double_to_u32 lit_1e6) 0 0 ACCEL).
Proof.
  intros Hsd Hlen Hmem.
  constructor; cbn [_delay0 _delay _smooth_delay _target_delay _shift];
    try assumption.
  - unfold u32; lia.
  - apply double_to_u32_range.
  - lia.
Qed.

Lemma stepper_stepper_inv fuel p1 p2 p3 p4 p5 p6 fv sd mem s io :
  stepper_stepper fuel p1 p2 p3 p4 p5 p6 fv sd mem = Some (s, io) ->
  exists s1,
    acceleration fuel (double_to_float DEFAULT_ACCEL)
      (mk_stepper p1 p2 p3 p4 p5 p6 fv 1 0 0 0 0 mem 0 sd
               (double_to_u32 lit_1e6) 0 0 ACCEL) = Some s1 /\
    target_speed fuel (double_to_float DEFAULT_TARGET_SPEED) s1 = Some s /\
    io = [ pinMode p1 OUTPUT; pinMode p2 OUTPUT; pinMode p3 OUTPUT;
           pinMode p4 OUTPUT; pinMode p5 OUTPUT; pinMode p6 OUTPUT;
           digitalWrite p1 fv; digitalWrite p3 not_STEPPER_ENABLE;
           digitalWrite p4 0; digitalWrite p5 0; digitalWrite p6 0 ].
Proof.
  unfold stepper_stepper.
  destruct (acceleration fuel _ _) as [s1|]; [|discriminate].
  destruct (target_speed fuel _ s1) as [s2|] eqn:E2; [|discriminate].
  intros H. exists s1. split; [reflexivity|]. split; congruence.
Qed.

Lemma scaled_stepper_stepper fuel p1 p2 p3 p4 p5 p6 fv sd mem s io :
  u32 sd -> length mem = MICRO_LEVELS -> Forall u32 mem ->
  stepper_stepper fuel p1 p2 p3 p4 p5 p6 fv sd mem = Some (s, io) ->
  scaled s.
Proof.
  intros Hsd Hlen Hmem Hnew.
  destruct (stepper_stepper_inv _ _ _ _ _ _ _ _ _ _ _ _ Hnew)
    as (s1 & E1 & E2 & _).
  apply scaled_acceleration in E1.
  - exact (scaled_target_speed _ _ _ _ (sc_typed _ E1) E2).
  - now apply well_typed_initial.
  - reflexivity.
Qed.

(** Every state a caller can hold is in the form [shift_up] leaves. *)
Lemma reachable_scaled s : reachable s -> scaled s.
Proof.
  induction 1 as
    [fuel p1 p2 p3 p4 p5 p6 fv sd mem s io Hsd Hlen Hmem Hnew
    |fuel pos s s' _ IH Hc
    |now s _ IH
    |now s _ IH
    |fuel accel s s' _ IH Ha
    |pos s _ IH
    |fuel speed s s' _ IH Ht
    |s _ IH].
  - eapply scaled_stepper_stepper; eassumption.
  - destruct (is_stopped s) eqn:Hs.
    + eapply scaled_calibrate_position; [apply IH|exact Hs|exact Hc].
    + rewrite not_stopped_calibrate_position in Hc by assumption.
      now injection Hc as <-.
  - revert IH. now apply scaled_same_delays.
  - now apply scaled_off.
  - destruct (is_stopped s) eqn:Hs.
    + eapply scaled_acceleration; [apply IH|exact Hs|exact Ha].
    + rewrite not_stopped_acceleration in Ha by assumption.
      now injection Ha as <-.
  - revert IH. now apply scaled_same_delays.
  - eapply scaled_target_speed; [apply IH|exact Ht].
  - exact IH.
Qed.

End MemberFunctions.

(** ** What the scaling functions leave alone *)

Section Frames.
Context {FA : FloatArith}.

Lemma same_motion_refl s : same_motion s s.
Proof. repeat split. Qed.

Lemma same_motion_trans s1 s2 s3 :
  same_motion s1 s2 -> same_motion s2 s3 -> same_motion s1 s3.
Proof.
  unfold same_motion. intros (? & ? & ? & ? & ?) (? & ? & ? & ? & ?).
  repeat split; congruence.
Qed.

Lemma for_from_same_motion body :
  (forall i s, same_motion s (body i s)) ->
  forall n i s, same_motion s (for_from i n body s).
Proof.
  intros Hb. induction n as [|n IH]; intros i s; simpl.
  - apply same_motion_refl.
  - eapply same_motion_trans; [apply Hb|apply IH].
Qed.

Lemma shift_down_same_motion s : same_motion s (shift_down s).
Proof.
  unfold shift_down, for_levels.
  set (body := fun (i : nat) (s : stepper) => set_delay0 _ s).
  pose proof (for_from_same_motion body) as H.
  specialize (H (fun i s => same_motion_refl s) MICRO_LEVELS 0%nat s).
  destruct H as (? & ? & ? & ? & ?). repeat split; assumption.
Qed.

Lemma shift_up_same_motion fuel s s' :
  shift_up fuel s = Some s' -> same_motion s s'.
Proof.
  unfold shift_up. destruct (negb (_shift s =? 0)).
  - intros H; injection H as <-. apply same_motion_refl.
  - destruct (shift_up_loop _ _ _) as [r|]; [|discriminate].
    intros H; injection H as <-. unfold for_levels.
    set (body := fun (i : nat) (s : stepper) => set_delay0 _ s).
    pose proof (for_from_same_motion body) as H.
    specialize (H (fun i s => same_motion_refl s) MICRO_LEVELS 0%nat
                  (set_shift (fst r) s)).
    destruct H as (? & ? & ? & ? & ?). repeat split; assumption.
Qed.

Lemma shift_up_more fuel n s s' :
  shift_up fuel s = Some s' -> shift_up (fuel + n) s = Some s'.
Proof.
  unfold shift_up. destruct (negb (_shift s =? 0)); [trivial|].
  destruct (shift_up_loop fuel _ _) as [r|] eqn:E; [|discriminate].
  now rewrite (shift_up_loop_more _ _ _ _ n E).
Qed.

Lemma shift_up_returns_30 s :
  well_typed s -> _shift s = 0 -> 0 < max_delay_of s ->
  exists s', forall fuel, (30 <= fuel)%nat -> shift_up fuel s = Some s'.
Proof.
  intros Hwt H0 Hpos.
  destruct (shift_up_returns 30 s Hwt H0 Hpos (le_n _)) as [s' Hs'].
  exists s'. intros fuel Hf. replace fuel with (30 + (fuel - 30))%nat by lia.
  now apply shift_up_more.
Qed.

(** While the loop of [shift_up] keeps doubling, nothing overflows. *)
Lemma doubling_no_overflow M k :
  0 <= M < 2 ^ 32 -> 0 <= k ->
  (forall j, 0 <= j < k -> M * 2 ^ j < SHIFT_THRESHOLD) ->
  M * 2 ^ k < 2 ^ 32.
Proof.
  intros HM Hk Hmin. destruct (Z.eq_dec k 0) as [->|Hk0]; [simpl; lia|].
  specialize (Hmin (k - 1)). rewrite SHIFT_THRESHOLD_eq in Hmin.
  replace k with (Z.succ (k - 1)) by lia. rewrite Z.pow_succ_r by lia. lia.
Qed.

Lemma map_same (f : Z -> Z) (P : Z -> Prop) l :
  (forall v, P v -> f v = v) -> Forall P l -> map f l = l.
Proof.
  intros Hf H. induction H as [|x l Hx Hl IH]; simpl; [reflexivity|].
  now rewrite Hf, IH.
Qed.

Lemma scale_up_down k s :
  well_typed s -> 0 <= k -> _shift s = k ->
  Forall (aligned k) (_delay0 s) -> aligned k (_delay s) ->
  aligned k (_smooth_delay s) -> aligned k (_target_delay s) ->
  scale_up_by k (scale_down_by k s) = s.
Proof.
  intros [H1 H2 H3 H4 H5 H6] Hk Hs A0 A1 A2 A3.
  destruct s as [? ? ? ? ? ? ? ? ? ? ? ? d0 d sd td sh ? ?].
  simpl in *. unfold scale_up_by, scale_down_by. simpl.
  rewrite map_map.
  rewrite (map_same (fun v => shl32 (shr32 v k) k)
             (fun v => u32 v /\ aligned k v) d0).
  - rewrite !shl32_shr32 by assumption. now subst sh.
  - intros v [Hu Ha]. now apply shl32_shr32.
  - apply Forall_forall. intros v Hv. split.
    + revert v Hv. now apply Forall_forall.
    + revert v Hv. now apply Forall_forall.
Qed.

Lemma max_delay_of_aligned s :
  scaled s -> aligned (_shift s) (max_delay_of s).
Proof.
  intros [_ _ G2 _ G4 G5 _ _]. unfold max_delay_of.
  assert (aligned (_shift s) (get (_delay0 s) (MICRO_LEVELS - 1)))
    by (apply get_Forall; [apply aligned_zero|assumption]).
  destruct (Z.max_spec (get (_delay0 s) (MICRO_LEVELS - 1)) (_target_delay s))
    as [[_ ->]|[_ ->]];
  match goal with
  | |- aligned _ (Z.max ?a ?b) =>
      destruct (Z.max_spec a b) as [[_ ->]|[_ ->]]; assumption
  end.
Qed.

End Frames.

(** ** The claims of the specification *)

Section Claims.
Context {FA : FloatArith}.

Lemma steps_fixed n s : steps n s = (repeat 0 n, s).
Proof.
  induction n as [|n IH]; simpl; [reflexivity|]. now rewrite IH.
Qed.

(** C2 -- Guarded mutation: when the engine is not stopped, [acceleration]
    and [calibrate_position] return at once with the state they were given,
    every field unchanged, whatever the fuel and the arguments; they
    perform no pin write (their result carries no event). *)
Theorem guarded_mutation_noop (s : stepper) (fuel : nat) (accel : float)
    (pos : Z) :
  is_stopped s = false ->
  acceleration fuel accel s = Some s /\
  calibrate_position fuel pos s = Some s.
Proof.
  intros H. split.
  - now apply not_stopped_acceleration.
  - now apply not_stopped_calibrate_position.
Qed.


(** C4 -- Immediate deceleration on a speed decrease: when the engine is
    moving (not stopped, phase not [OFF]) and the delay of the new target
    speed is above the current delay, [target_speed] returns and the phase
    is [DECEL], whatever the phase was ([ACCEL], [TARGET_SPEED] or
    [DECEL]). *)
Theorem speed_decrease_forces_DECEL (s : stepper) (speed : float) :
  well_typed s -> is_stopped s = false -> _state s <> OFF ->
  double_to_u32 (ddiv lit_1e6 (float_to_double speed))
    > shr32 (_delay s) (_shift s) ->
  exists s',
    (forall fuel, (30 <= fuel)%nat -> target_speed fuel speed s = Some s') /\
    _state s' = DECEL.
Proof.
  intros Hwt Hst Hoff Hgt.
  set (td := double_to_u32 (ddiv lit_1e6 (float_to_double speed))) in *.
  assert (Hb : target_speed_body speed s =
               set_state DECEL (set_target_delay td
                                  (scale_down_by (_shift s) s))).
  { unfold target_speed_body. cbv zeta. rewrite Hst.
    assert (state_eqb (_state s) OFF = false) as ->
      by (destruct (_state s); [contradiction|reflexivity..]).
    cbn [negb andb set_target_delay scale_down_by _target_delay _delay].
    fold td. destruct (Z.gtb_spec td (shr32 (_delay s) (_shift s))); [|lia].
    reflexivity. }
  pose proof (well_typed_target_speed_body speed s Hwt) as Hwb.
  pose proof (shift_target_speed_body speed s) as Hsb.
  assert (Hpos : 0 < max_delay_of (target_speed_body speed s)).
  { rewrite Hb. unfold max_delay_of.
    cbn [set_state set_target_delay scale_down_by _delay0 _target_delay
         _smooth_delay].
    pose proof (shr32_u32 _ (_shift s) (wt_delay _ Hwt)
                  (proj1 (wt_shift _ Hwt))) as Hd.
    unfold u32 in Hd. lia. }
  destruct (shift_up_returns_30 _ Hwb Hsb Hpos) as [s' Hs'].
  exists s'. split.
  - intros fuel Hf. rewrite target_speed_eq by apply Hwt. now apply Hs'.
  - destruct (shift_up_same_motion _ _ _ (Hs' _ (le_n _))) as [-> _].
    now rewrite Hb.
Qed.

(** C5 (amended) -- A speed increase is not deferred: when the engine is
    moving (not stopped, phase not [OFF]) and the delay of the new target
    speed is at or below the current delay, [target_speed] sets the phase
    to [ACCEL] at once, also when the phase was [DECEL]. *)
Theorem speed_increase_forces_ACCEL (s : stepper) (speed : float) :
  well_typed s -> is_stopped s = false -> _state s <> OFF ->
  double_to_u32 (ddiv lit_1e6 (float_to_double speed))
    <= shr32 (_delay s) (_shift s) ->
  0 < Z.max (Z.max (shr32 (get (_delay0 s) (MICRO_LEVELS - 1)) (_shift s))
                   (double_to_u32 (ddiv lit_1e6 (float_to_double speed))))
            (shr32 (_smooth_delay s) (_shift s)) ->
  exists s',
    (forall fuel, (30 <= fuel)%nat -> target_speed fuel speed s = Some s') /\
    _state s' = ACCEL.
Proof.
  intros Hwt Hst Hoff Hle Hmax.
  set (td := double_to_u32 (ddiv lit_1e6 (float_to_double speed))) in *.
  assert (Hb : target_speed_body speed s =
               set_state ACCEL (set_target_delay td
                                  (scale_down_by (_shift s) s))).
  { unfold target_speed_body. cbv zeta. rewrite Hst.
    assert (state_eqb (_state s) OFF = false) as ->
      by (destruct (_state s); [contradiction|reflexivity..]).
    cbn [negb andb set_target_delay scale_down_by _target_delay _delay].
    fold td. destruct (Z.gtb_spec td (shr32 (_delay s) (_shift s))); [lia|].
    reflexivity. }
  pose proof (well_typed_target_speed_body speed s Hwt) as Hwb.
  pose proof (shift_target_speed_body speed s) as Hsb.
  assert (Hpos : 0 < max_delay_of (target_speed_body speed s)).
  { rewrite Hb. unfold max_delay_of.
    cbn [set_state set_target_delay scale_down_by _delay0 _target_delay
         _smooth_delay].
    rewrite (get_map (fun v => shr32 v (_shift s))) by apply shr32_zero.
    exact Hmax. }
  destruct (shift_up_returns_30 _ Hwb Hsb Hpos) as [s' Hs'].
  exists s'. split.
  - intros fuel Hf. rewrite target_speed_eq by apply Hwt. now apply Hs'.
  - destruct (shift_up_same_motion _ _ _ (Hs' _ (le_n _))) as [-> _].
    now rewrite Hb.
Qed.

Lemma get_levels (f : nat -> Z) m :
  (m < MICRO_LEVELS)%nat -> get (map f (seq 0 MICRO_LEVELS)) m = f m.
Proof.
  intros H. unfold MICRO_LEVELS in *.
  do 6 (destruct m as [|m]; [reflexivity|]). lia.
Qed.

Lemma max_delay_of_acceleration_body accel s :
  max_delay_of (acceleration_body accel s) =
  Z.max (Z.max (spec_start_delay accel (MICRO_LEVELS - 1))
               (shr32 (_target_delay s) (_shift s)))
        (shr32 (_smooth_delay s) (_shift s)).
Proof. reflexivity. Qed.

(** What [acceleration] stores, in a stopped engine: the table of the
    formula, every entry shifted by the new [_shift]. *)
Lemma acceleration_table accel s :
  well_typed s -> is_stopped s = true ->
  0 < Z.max (Z.max (spec_start_delay accel (MICRO_LEVELS - 1))
                   (shr32 (_target_delay s) (_shift s)))
            (shr32 (_smooth_delay s) (_shift s)) ->
  exists s',
    (forall fuel, (30 <= fuel)%nat -> acceleration fuel accel s = Some s') /\
    0 <= _shift s' <= 30 /\
    forall m, (m < MICRO_LEVELS)%nat ->
      get (_delay0 s') m = shl32 (spec_start_delay accel m) (_shift s') /\
      (spec_start_delay accel m <= spec_start_delay accel (MICRO_LEVELS - 1) ->
       get (_delay0 s') m = spec_start_delay accel m * 2 ^ _shift s').
Proof.
  intros Hwt Hst Hpos. rewrite <- max_delay_of_acceleration_body in Hpos.
  pose proof (well_typed_acceleration_body accel s Hwt) as Hwb.
  assert (Hsb : _shift (acceleration_body accel s) = 0) by reflexivity.
  destruct (shift_up_returns_30 _ Hwb Hsb Hpos) as [s' Hs'].
  exists s'. split.
  - intros fuel Hf. rewrite acceleration_eq by (assumption || apply Hwt).
    now apply Hs'.
  - destruct (shift_up_spec 30 _ s' Hwb Hsb (Hs' _ (le_n _)))
      as (k & Hk & -> & _ & Hth & Hmin).
    change (_shift (scale_up_by k (acceleration_body accel s))) with k.
    split; [exact Hk|]. intros m Hm.
    assert (E : get (_delay0 (scale_up_by k (acceleration_body accel s))) m
                = shl32 (spec_start_delay accel m) k).
    { cbn [scale_up_by acceleration_body set_delay0 _delay0].
      rewrite (get_map (fun v => shl32 v k)) by apply shl32_zero.
      now rewrite get_levels. }
    split; [exact E|]. intros Hle. rewrite E.
    pose proof (max_delay_of_u32 _ Hwb) as Hu.
    pose proof (doubling_no_overflow _ k Hu (proj1 Hk) Hmin) as Hno.
    rewrite max_delay_of_acceleration_body in Hno, Hu.
    pose proof (double_to_u32_range
                  (dmul (float_to_double (spec_d0 accel))
                        (sqrt_of_int (2 ^ Z.of_nat m)))) as Hr.
    fold (spec_start_delay accel m) in Hr. unfold u32 in Hr, Hu.
    assert (0 < 2 ^ k) by (apply Z.pow_pos_nonneg; lia).
    apply shl32_small; try lia.
    apply Z.le_lt_trans with (2 := Hno).
    apply Z.mul_le_mono_nonneg_r; lia.
Qed.

(** In every state that the public interface can produce, [shift_down]
    followed at once by [shift_up] returns and restores the state, every
    delay field included, exactly. *)
Theorem shift_round_trip (s : stepper) :
  reachable s ->
  forall fuel, (30 <= fuel)%nat -> shift_up fuel (shift_down s) = Some s.
Proof.
  intros Hr. pose proof (reachable_scaled s Hr) as Hsc.
  pose proof Hsc as [Hwt G1 G2 G3 G4 G5 G6 G7].
  pose proof (wt_shift _ Hwt) as [Hk0 _].
  rewrite shift_down_eq by apply Hwt.
  set (k := _shift s) in *. set (d := scale_down_by k s).
  pose proof (well_typed_scale_down k s Hwt Hk0) as Hwd. fold d in Hwd.
  assert (Hsd : _shift d = 0) by reflexivity.
  pose proof (max_delay_of_u32 s Hwt) as Hu. unfold u32 in Hu.
  pose proof (max_delay_of_aligned s Hsc) as Ha. fold k in Ha.
  unfold aligned in Ha. rewrite SHIFT_THRESHOLD_eq in G6, G7.
  assert (Hp : 0 < 2 ^ k) by (apply Z.pow_pos_nonneg; lia).
  assert (HM : max_delay_of d * 2 ^ k = max_delay_of s).
  { unfold d. rewrite max_delay_of_scale_down, shr32_div by assumption.
    pose proof (Z.div_mod (max_delay_of s) (2 ^ k)). lia. }
  assert (Hpos : 0 < max_delay_of d) by nia.
  destruct (shift_up_returns_30 d Hwd Hsd Hpos) as [s' Hs'].
  intros fuel Hf. rewrite (Hs' fuel Hf). f_equal.
  destruct (shift_up_spec 30 d s' Hwd Hsd (Hs' _ (le_n _)))
    as (k' & Hk' & -> & _ & Hth & Hmin).
  rewrite SHIFT_THRESHOLD_eq in Hth.
  assert (k' = k) as ->.
  { destruct (Z.lt_trichotomy k' k) as [Hlt|[Heq|Hgt]]; [|assumption|].
    - exfalso. assert (Hk : k <> 0) by lia. specialize (G7 Hk).
      assert (2 ^ k' * 2 <= 2 ^ k).
      { replace k with (Z.succ (k - 1)) by lia.
        rewrite Z.pow_succ_r by lia.
        assert (2 ^ k' <= 2 ^ (k - 1))
          by (apply Z.pow_le_mono_r; lia). lia. }
      nia.
    - exfalso. specialize (Hmin k). rewrite SHIFT_THRESHOLD_eq in Hmin. lia. }
  unfold d. now apply scale_up_down.
Qed.

Lemma is_stopped_same_motion s s' :
  same_motion s s' -> is_stopped s' = is_stopped s.
Proof.
  intros (_ & Hp & Ht & Ha & _). unfold is_stopped. now rewrite Hp, Ht, Ha.
Qed.

Lemma same_motion_set_delay v s : same_motion s (set_delay v s).
Proof. repeat split. Qed.

Lemma same_motion_set_target_delay v s : same_motion s (set_target_delay v s).
Proof. repeat split. Qed.

Lemma acceleration_same_motion fuel accel s s' :
  acceleration fuel accel s = Some s' -> same_motion s s'.
Proof.
  unfold acceleration. destruct (negb (is_stopped s)).
  - intros H; injection H as <-. apply same_motion_refl.
  - cbv zeta. intros H. apply shift_up_same_motion in H.
    eapply same_motion_trans; [|exact H]. unfold for_levels.
    eapply same_motion_trans;
      [|apply for_from_same_motion; intros; repeat split].
    eapply same_motion_trans;
      [apply shift_down_same_motion|apply same_motion_set_delay].
Qed.

Lemma target_speed_same_motion fuel speed s s' :
  is_stopped s = true -> target_speed fuel speed s = Some s' ->
  same_motion s s'.
Proof.
  intros Hst. unfold target_speed. cbv zeta.
  set (td := double_to_u32 _).
  assert (E : is_stopped (set_target_delay td (shift_down s)) = true).
  { rewrite <- Hst. apply is_stopped_same_motion.
    eapply same_motion_trans;
      [apply shift_down_same_motion|apply same_motion_set_target_delay]. }
  rewrite E. cbn [negb andb]. intros H. apply shift_up_same_motion in H.
  eapply same_motion_trans; [|exact H].
  eapply same_motion_trans;
    [apply shift_down_same_motion|apply same_motion_set_target_delay].
Qed.

(** C9 -- The phase after construction: the constructor writes the enable
    pin with [!STEPPER_ENABLE] (the driver is disabled, as [off] leaves
    it) and returns an engine whose [_state] is [ACCEL], not [OFF]. *)
Theorem constructed_state_is_ACCEL (fuel : nat)
    (dir_pin step_pin enable_pin micro0_pin micro1_pin micro2_pin : Z)
    (forward_value smooth_delay : Z) (mem : list Z) (s : stepper)
    (io : list io_event) :
  stepper_stepper fuel dir_pin step_pin enable_pin micro0_pin micro1_pin
    micro2_pin forward_value smooth_delay mem = Some (s, io) ->
  _state s = ACCEL /\ _state s <> OFF /\
  In (digitalWrite enable_pin not_STEPPER_ENABLE) io /\
  snd (off 0 s) = [digitalWrite (_enable_pin s) not_STEPPER_ENABLE] /\
  _state (snd (fst (off 0 s))) = OFF.
Proof.
  intros H.
  destruct (stepper_stepper_inv _ _ _ _ _ _ _ _ _ _ _ _ H)
    as (s1 & E1 & E2 & ->).
  apply acceleration_same_motion in E1.
  assert (Hst : is_stopped s1 = true)
    by now rewrite (is_stopped_same_motion _ _ E1).
  apply (target_speed_same_motion _ _ _ _ Hst) in E2.
  destruct (same_motion_trans _ _ _ E1 E2) as [Hs _].
  change (_state s = ACCEL) in Hs. rewrite Hs.
  split; [reflexivity|]. split; [discriminate|].
  split; [|split; reflexivity].
  do 7 right. left. reflexivity.
Qed.

End Claims.

(** ** Facts about the concrete engines *)

Module BenchFacts.

Import IEEE Bench.

Ltac all_u32 :=
  repeat first [apply Forall_nil | apply Forall_cons; [unfold u32; lia|]].

Ltac typed :=
  constructor; simpl; [ reflexivity | all_u32 | unfold u32; lia .. ].

Lemma fresh_state_constructed :
  stepper_stepper 30 1 2 3 4 5 6 1 0 zeros = Some (fresh_state, fresh_io).
Proof. vm_compute. reflexivity. Qed.

Lemma fresh_state_reachable : reachable fresh_state.
Proof.
  apply (reach_stepper 30 1 2 3 4 5 6 1 0 zeros fresh_state fresh_io).
  - unfold u32; lia.
  - reflexivity.
  - unfold zeros. all_u32.
  - exact fresh_state_constructed.
Qed.

Lemma well_typed_fresh_state : well_typed fresh_state.
Proof. typed. Qed.

Lemma well_typed_unscaled_state : well_typed unscaled_state.
Proof. typed. Qed.

Lemma well_typed_decelerating_state : well_typed decelerating_state.
Proof. typed. Qed.

Lemma well_typed_fast_state : well_typed fast_state.
Proof. typed. Qed.

Lemma accelerating_state_reached :
  exists b,
    acceleration 30 f10 fresh_state = Some b /\
    target_pos 5 b = accelerating_state.
Proof.
  eexists. split; [vm_compute; reflexivity|]. vm_compute. reflexivity.
Qed.

Lemma decelerating_state_reached :
  target_speed 30 f1 accelerating_state = Some decelerating_state.
Proof. vm_compute. reflexivity. Qed.

Lemma fast_state_reached : target_speed 30 f2e6 fresh_state = Some fast_state.
Proof. vm_compute. reflexivity. Qed.

(** [unscaled_state] is the state on which the constructor makes its last
    call of [shift_up], inside [target_speed(DEFAULT_TARGET_SPEED)]. *)
Lemma unscaled_state_reached :
  exists s1,
    acceleration 30 (double_to_float DEFAULT_ACCEL)
      (mk_stepper 1 2 3 4 5 6 1 1 0 0 0 0 zeros 0 0
         (double_to_u32 lit_1e6) 0 0 ACCEL) = Some s1 /\
    target_speed_body (double_to_float DEFAULT_TARGET_SPEED) s1
    = unscaled_state.
Proof.
  eexists. split; [vm_compute; reflexivity|]. vm_compute. reflexivity.
Qed.

(** [zero_state] is the state on which [acceleration(1e14)] calls
    [shift_up] in [fast_state]. *)
Lemma zero_state_reached : acceleration_body f1e14 fast_state = zero_state.
Proof. vm_compute. reflexivity. Qed.

End BenchFacts.

(** ** Claims settled by evaluation *)

Module Evaluation.

Import IEEE Bench BenchFacts.

(** C1 -- Arrival.  [step] returns [0] and leaves the state as it is, so
    after any number of calls the position has not moved: the engine built
    by the constructor and sent to position 5 stays at position 0 with its
    target 5 steps away, and every call reports "no step taken". *)
Theorem step_never_arrives :
  (forall (n : nat) (s : stepper), steps n s = (repeat 0 n, s)) /\
  stepper_stepper 30 1 2 3 4 5 6 1 0 zeros = Some (fresh_state, fresh_io) /\
  is_stopped fresh_state = true /\
  forall n : nat,
    fst (steps n (target_pos 5 fresh_state)) = repeat 0 n /\
    _pos (snd (steps n (target_pos 5 fresh_state))) = 0 /\
    _target_pos (snd (steps n (target_pos 5 fresh_state))) = 5 /\
    is_stopped (snd (steps n (target_pos 5 fresh_state))) = false.
Proof.
  split; [exact steps_fixed|].
  split; [exact fresh_state_constructed|].
  split; [reflexivity|].
  intros n. rewrite steps_fixed. repeat split.
Qed.


(** C5, as stated, fails: the engine is decelerating toward a lower
    speed; [target_speed(10.0)], a higher speed whose delay is below the
    current delay, switches the phase from [DECEL] to [ACCEL]. *)
Lemma speed_increase_not_deferred :
  (exists b,
     stepper_stepper 30 1 2 3 4 5 6 1 0 zeros = Some (fresh_state, fresh_io) /\
     acceleration 30 f10 fresh_state = Some b /\
     target_pos 5 b = accelerating_state) /\
  target_speed 30 f1 accelerating_state = Some decelerating_state /\
  _state decelerating_state = DECEL /\
  is_stopped decelerating_state = false /\
  double_to_u32 (ddiv lit_1e6 (float_to_double f10))
    <= shr32 (_delay decelerating_state) (_shift decelerating_state) /\
  exists e,
    target_speed 30 f10 decelerating_state = Some e /\
    _state e = ACCEL /\ _state e <> DECEL.
Proof.
  split.
  { destruct accelerating_state_reached as (b & Hb & Hd).
    exists b. split; [exact fresh_state_constructed|]. split; assumption. }
  split; [exact decelerating_state_reached|].
  split; [reflexivity|]. split; [reflexivity|].
  split; [vm_compute; intros H; discriminate H|].
  eexists. split; [vm_compute; reflexivity|].
  split; [reflexivity|discriminate].
Qed.


Lemma table_ok_checked :
  forallb table_ok (map Z.of_nat (seq 1 (Z.to_nat MAX_CHECKED_ACCEL))) = true.
Proof. vm_compute. reflexivity. Qed.

Lemma table_ok_range a : 1 <= a <= MAX_CHECKED_ACCEL -> table_ok a = true.
Proof.
  intros Ha. pose proof table_ok_checked as H.
  rewrite forallb_forall in H. apply H.
  apply in_map_iff. exists (Z.to_nat a). split; [lia|].
  apply in_seq. unfold MAX_CHECKED_ACCEL in *. lia.
Qed.

Lemma table_ok_spec a level :
  table_ok a = true -> (level < MICRO_LEVELS)%nat ->
  let e := spec_start_delay (float_of_int a) in
  0 < e (MICRO_LEVELS - 1)%nat /\
  e 0%nat * e 0%nat * 2 ^ Z.of_nat level < (e level + 1) * (e level + 1) /\
  e level * e level < (e 0%nat + 1) * (e 0%nat + 1) * 2 ^ Z.of_nat level /\
  e 0%nat <= e level /\ e level <= e (MICRO_LEVELS - 1)%nat.
Proof.
  intros H Hl. unfold table_ok in H. cbv zeta in H.
  apply andb_prop in H. destruct H as [H _].
  apply andb_prop in H. destruct H as [H5 H].
  rewrite forallb_forall in H. specialize (H level).
  unfold ramp_table in *.
  rewrite !get_levels in * by (unfold MICRO_LEVELS in *; lia).
  assert (Hin : In level (seq 0 MICRO_LEVELS)) by (apply in_seq; lia).
  specialize (H Hin).
  repeat (apply andb_prop in H; destruct H as [H ?]).
  cbv zeta. repeat split; lia.
Qed.

Lemma table_ok_increasing a level :
  table_ok a = true -> (S level < MICRO_LEVELS)%nat ->
  spec_start_delay (float_of_int a) level
  < spec_start_delay (float_of_int a) (S level).
Proof.
  intros H Hl. unfold table_ok in H. cbv zeta in H.
  apply andb_prop in H. destruct H as [_ H].
  rewrite forallb_forall in H. specialize (H level).
  unfold ramp_table in *.
  rewrite !get_levels in * by (unfold MICRO_LEVELS in *; lia).
  assert (Hin : In level (seq 0 (MICRO_LEVELS - 1)))
    by (apply in_seq; unfold MICRO_LEVELS in *; lia).
  specialize (H Hin). lia.
Qed.

Lemma acceleration_returns_checked a s :
  well_typed s -> 1 <= a <= MAX_CHECKED_ACCEL ->
  0 < Z.max (Z.max (spec_start_delay (float_of_int a) (MICRO_LEVELS - 1))
                   (shr32 (_target_delay s) (_shift s)))
            (shr32 (_smooth_delay s) (_shift s)).
Proof.
  intros Hwt Ha. pose proof (table_ok_range a Ha) as Hok.
  assert (H0 : (0 < MICRO_LEVELS)%nat) by (unfold MICRO_LEVELS; lia).
  destruct (table_ok_spec a 0 Hok H0) as (Hpos & _). cbv zeta in Hpos.
  pose proof (shr32_u32 _ (_shift s) (wt_target _ Hwt)
                (proj1 (wt_shift _ Hwt))) as H1.
  pose proof (shr32_u32 _ (_shift s) (wt_smooth _ Hwt)
                (proj1 (wt_shift _ Hwt))) as H2.
  unfold u32 in *. lia.
Qed.

(** The table of the checked accelerations.  In a stopped engine
    [acceleration] returns (as soon as one of the three delays that
    [shift_up] inspects is nonzero) and has set, for every level [m] below
    [MICRO_LEVELS], [_delay0[m]] to [d0 * sqrt(2^m)] with
    [d0 = sqrt(1/accel) * 0.676 * 1e6], converted to [uint32_t] and held at
    the common shift.  Under IEEE arithmetic and for the integer
    accelerations from 1 to 1000, and for these only, the entry of each
    level is above the entry of the level before. *)
Theorem ramp_table_formula :
  (forall (FA : FloatArith) (s : stepper) (accel : float),
     well_typed s -> is_stopped s = true ->
     0 < Z.max (Z.max (spec_start_delay accel (MICRO_LEVELS - 1))
                      (shr32 (_target_delay s) (_shift s)))
               (shr32 (_smooth_delay s) (_shift s)) ->
     exists s',
       (forall fuel, (30 <= fuel)%nat ->
          acceleration fuel accel s = Some s') /\
       forall m, (m < MICRO_LEVELS)%nat ->
         get (_delay0 s') m = shl32 (spec_start_delay accel m) (_shift s') /\
         (spec_start_delay accel m
            <= spec_start_delay accel (MICRO_LEVELS - 1) ->
          get (_delay0 s') m = spec_start_delay accel m * 2 ^ _shift s')) /\
  (forall (s : stepper) (a : Z),
     well_typed s -> is_stopped s = true -> 1 <= a <= MAX_CHECKED_ACCEL ->
     exists s',
       (forall fuel, (30 <= fuel)%nat ->
          acceleration fuel (float_of_int a) s = Some s') /\
       forall m, (S m < MICRO_LEVELS)%nat ->
         get (_delay0 s') m < get (_delay0 s') (S m)).
Proof.
  split.
  - intros FA s accel Hwt Hst Hpos.
    destruct (acceleration_table accel s Hwt Hst Hpos) as (s' & H1 & _ & H2).
    exists s'. split; assumption.
  - intros s a Hwt Hst Ha. pose proof (table_ok_range a Ha) as Hok.
    destruct (acceleration_table (float_of_int a) s Hwt Hst
                (acceleration_returns_checked a s Hwt Ha))
      as (s' & Hs' & Hk & Ht).
    exists s'. split; [exact Hs'|]. intros m Hm.
    assert (Hm0 : (m < MICRO_LEVELS)%nat) by lia.
    destruct (table_ok_spec a m Hok Hm0) as (_ & _ & _ & _ & G1).
    destruct (table_ok_spec a (S m) Hok Hm) as (_ & _ & _ & _ & G2).
    cbv zeta in G1, G2.
    destruct (Ht m Hm0) as [_ E1]. destruct (Ht (S m) Hm) as [_ E2].
    rewrite (E1 G1), (E2 G2).
    apply Zmult_lt_compat_r; [apply Z.pow_pos_nonneg; lia|].
    now apply table_ok_increasing.
Qed.

(** The table of the checked accelerations, against its first entry:
    after [acceleration(a)] has regenerated the table in a stopped engine
    ([a] an integer acceleration from 1 to 1000, IEEE arithmetic), every
    entry is [_delay0[0] * sqrt(2^level)] up to the truncation to an
    integer number of microseconds at the common shift. *)
Theorem ramp_table_grows (s : stepper) (a : Z) :
  well_typed s -> is_stopped s = true -> 1 <= a <= MAX_CHECKED_ACCEL ->
  exists s',
    (forall fuel, (30 <= fuel)%nat ->
       acceleration fuel (float_of_int a) s = Some s') /\
    forall level, (level < MICRO_LEVELS)%nat ->
      grows_by_sqrt (get (_delay0 s') level) (get (_delay0 s') 0)
                    (2 ^ _shift s') level /\
      get (_delay0 s') 0 <= get (_delay0 s') level.
Proof.
  intros Hwt Hst Ha. pose proof (table_ok_range a Ha) as Hok.
  assert (H0 : (0 < MICRO_LEVELS)%nat) by (unfold MICRO_LEVELS; lia).
  destruct (table_ok_spec a 0 Hok H0) as (Hpos & _ & _ & _ & H05).
  cbv zeta in Hpos, H05.
  destruct (acceleration_table (float_of_int a) s Hwt Hst
              (acceleration_returns_checked a s Hwt Ha))
    as (s' & Hs' & Hk & Ht).
  exists s'. split; [exact Hs'|]. intros level Hl.
  destruct (table_ok_spec a level Hok Hl) as (_ & G1 & G2 & G3 & G4).
  cbv zeta in G1, G2, G3, G4.
  destruct (Ht level Hl) as [_ El]. destruct (Ht 0%nat H0) as [_ E0].
  rewrite (El G4), (E0 H05). unfold grows_by_sqrt.
  set (p := 2 ^ _shift s'). assert (Hp : 0 < p) by (apply Z.pow_pos_nonneg; lia).
  set (x := spec_start_delay (float_of_int a) level) in *.
  set (y := spec_start_delay (float_of_int a) 0) in *.
  set (q := 2 ^ Z.of_nat level) in *.
  assert (Hpp : 0 < p * p) by nia.
  split; [split|].
  - replace (y * p * (y * p) * q) with (y * y * q * (p * p)) by ring.
    replace ((x * p + p) * (x * p + p)) with ((x + 1) * (x + 1) * (p * p)) by ring.
    apply Zmult_lt_compat_r; assumption.
  - replace (x * p * (x * p)) with (x * x * (p * p)) by ring.
    replace ((y * p + p) * (y * p + p) * q)
      with ((y + 1) * (y + 1) * q * (p * p)) by ring.
    apply Zmult_lt_compat_r; assumption.
  - apply Z.mul_le_mono_nonneg_r; lia.
Qed.

(** C10 -- Termination of [shift_up] from [_shift = 0]: it returns, for
    some fuel, exactly when the largest of the three delays it inspects is
    nonzero; when all three are zero no fuel suffices, and then
    [calibrate_position], [acceleration] and [target_speed], which end in
    [shift_up], do not return either.  Such a call is within reach of the
    public interface: an engine built with [smooth_delay = 0], then
    [target_speed(2e6)], then [acceleration(1e14)]. *)
Theorem shift_up_terminates_iff :
  (forall (FA : FloatArith) (s : stepper),
     well_typed s -> _shift s = 0 ->
     ((exists fuel s', shift_up fuel s = Some s') <-> max_delay_of s <> 0) /\
     (max_delay_of s = 0 -> forall fuel, shift_up fuel s = None)) /\
  (forall (FA : FloatArith) (s : stepper),
     well_typed s -> is_stopped s = true ->
     max_delay_of (shift_down s) = 0 ->
     forall fuel pos, calibrate_position fuel pos s = None) /\
  (forall (FA : FloatArith) (s : stepper) (accel : float),
     well_typed s -> is_stopped s = true ->
     spec_start_delay accel (MICRO_LEVELS - 1) = 0 ->
     shr32 (_target_delay s) (_shift s) = 0 ->
     shr32 (_smooth_delay s) (_shift s) = 0 ->
     forall fuel, acceleration fuel accel s = None) /\
  (forall (FA : FloatArith) (s : stepper) (speed : float),
     well_typed s ->
     shr32 (get (_delay0 s) (MICRO_LEVELS - 1)) (_shift s) = 0 ->
     double_to_u32 (ddiv lit_1e6 (float_to_double speed)) = 0 ->
     shr32 (_smooth_delay s) (_shift s) = 0 ->
     forall fuel, target_speed fuel speed s = None) /\
  (stepper_stepper 30 1 2 3 4 5 6 1 0 zeros = Some (fresh_state, fresh_io) /\
   target_speed 30 f2e6 fresh_state = Some fast_state /\
   forall fuel, acceleration fuel f1e14 fast_state = None).
Proof.
  split; [|split; [|split; [|split]]].
  - intros FA s Hwt H0. split; [split|].
    + intros (fuel & s' & H) Hz.
      rewrite shift_up_hangs in H by (assumption || apply Hwt). discriminate.
    + intros Hnz. pose proof (max_delay_of_u32 s Hwt) as Hu. unfold u32 in Hu.
      assert (Hpos : 0 < max_delay_of s) by lia.
      destruct (shift_up_returns 30 s Hwt H0 Hpos (le_n _)) as [s' Hs'].
      now exists 30%nat, s'.
    + intros Hz fuel. apply shift_up_hangs; assumption || apply Hwt.
  - intros FA s Hwt Hst Hz fuel pos.
    rewrite calibrate_position_eq by (assumption || apply Hwt).
    rewrite shift_down_eq in Hz by apply Hwt.
    apply shift_up_hangs; [| reflexivity | exact Hz].
    cbn [set_pos scale_down_by _delay0]. rewrite length_map. apply Hwt.
  - intros FA s accel Hwt Hst H5 Ht Hs fuel.
    rewrite acceleration_eq by (assumption || apply Hwt).
    apply shift_up_hangs; [reflexivity | reflexivity |].
    rewrite max_delay_of_acceleration_body, H5, Ht, Hs. reflexivity.
  - intros FA s speed Hwt H5 Ht Hs fuel.
    rewrite target_speed_eq by apply Hwt.
    pose proof (well_typed_target_speed_body speed s Hwt) as Hwb.
    apply shift_up_hangs;
      [apply Hwb | apply shift_target_speed_body |].
    unfold target_speed_body. cbv zeta.
    destruct (negb (is_stopped s) && negb (state_eqb (_state s) OFF));
      [destruct (_ >? _)|]; unfold max_delay_of;
      cbn [set_state set_target_delay scale_down_by _delay0 _target_delay
           _smooth_delay];
      rewrite (get_map (fun v => shr32 v (_shift s))) by apply shr32_zero;
      rewrite H5, Ht, Hs; reflexivity.
  - split; [exact fresh_state_constructed|].
    split; [exact fast_state_reached|].
    intros fuel.
    rewrite acceleration_eq by reflexivity.
    apply shift_up_hangs; [reflexivity | reflexivity |].
    vm_compute. reflexivity.
Qed.

End Evaluation.

(** ** The theorems at concrete engines *)

Module Instances.

Import IEEE Bench BenchFacts Evaluation.

Lemma guarded_mutation_noop_witness :
  is_stopped accelerating_state = false /\
  acceleration 30 f10 accelerating_state = Some accelerating_state /\
  calibrate_position 30 7 accelerating_state = Some accelerating_state.
Proof.
  split; [reflexivity|].
  apply (guarded_mutation_noop accelerating_state 30 f10 7). reflexivity.
Defined.


Lemma speed_decrease_forces_DECEL_witness :
  well_typed accelerating_state /\
  is_stopped accelerating_state = false /\
  _state accelerating_state = ACCEL /\
  double_to_u32 (ddiv lit_1e6 (float_to_double f1))
    > shr32 (_delay accelerating_state) (_shift accelerating_state) /\
  exists s',
    target_speed 30 f1 accelerating_state = Some s' /\ _state s' = DECEL.
Proof.
  assert (Hwt : well_typed accelerating_state) by typed.
  assert (Hgt : double_to_u32 (ddiv lit_1e6 (float_to_double f1))
                > shr32 (_delay accelerating_state)
                        (_shift accelerating_state))
    by (vm_compute; reflexivity).
  split; [exact Hwt|]. split; [reflexivity|]. split; [reflexivity|].
  split; [exact Hgt|].
  destruct (speed_decrease_forces_DECEL accelerating_state f1 Hwt eq_refl)
    as (s' & Hs' & Hst); [discriminate|exact Hgt|].
  exists s'. split; [apply Hs'; apply le_n|exact Hst].
Defined.

Lemma speed_increase_forces_ACCEL_witness :
  well_typed decelerating_state /\
  is_stopped decelerating_state = false /\
  _state decelerating_state = DECEL /\
  double_to_u32 (ddiv lit_1e6 (float_to_double f10))
    <= shr32 (_delay decelerating_state) (_shift decelerating_state) /\
  exists s',
    target_speed 30 f10 decelerating_state = Some s' /\ _state s' = ACCEL.
Proof.
  assert (Hwt : well_typed decelerating_state) by typed.
  assert (Hle : double_to_u32 (ddiv lit_1e6 (float_to_double f10))
                <= shr32 (_delay decelerating_state)
                         (_shift decelerating_state))
    by (vm_compute; intros H; discriminate H).
  split; [exact Hwt|]. split; [reflexivity|]. split; [reflexivity|].
  split; [exact Hle|].
  destruct (speed_increase_forces_ACCEL decelerating_state f10 Hwt eq_refl)
    as (s' & Hs' & Hst);
    [discriminate|exact Hle|vm_compute; reflexivity|].
  exists s'. split; [apply Hs'; apply le_n|exact Hst].
Defined.

Lemma ramp_table_formula_witness :
  well_typed fresh_state /\ is_stopped fresh_state = true /\
  exists s',
    acceleration 30 f10 fresh_state = Some s' /\
    map (get (_delay0 s')) (seq 0 MICRO_LEVELS) =
    map (fun m => spec_start_delay f10 m * 2 ^ 10) (seq 0 MICRO_LEVELS) /\
    get (_delay0 s') 0 < get (_delay0 s') 1.
Proof.
  assert (Hwt : well_typed fresh_state) by typed.
  split; [exact Hwt|]. split; [reflexivity|].
  destruct (proj1 ramp_table_formula IEEE.arith fresh_state f10 Hwt eq_refl)
    as (s' & Hs' & _); [vm_compute; reflexivity|].
  exists s'. specialize (Hs' 30%nat (le_n _)). split; [exact Hs'|].
  vm_compute in Hs'. injection Hs' as <-.
  split; vm_compute; reflexivity.
Defined.

Lemma ramp_table_grows_witness :
  well_typed fresh_state /\ is_stopped fresh_state = true /\
  1 <= 10 <= MAX_CHECKED_ACCEL /\
  exists s',
    acceleration 30 (float_of_int 10) fresh_state = Some s' /\
    grows_by_sqrt (get (_delay0 s') 5) (get (_delay0 s') 0)
                  (2 ^ _shift s') 5.
Proof.
  assert (Hwt : well_typed fresh_state) by typed.
  assert (Ha : 1 <= 10 <= MAX_CHECKED_ACCEL) by (unfold MAX_CHECKED_ACCEL; lia).
  split; [exact Hwt|]. split; [reflexivity|]. split; [exact Ha|].
  destruct (ramp_table_grows fresh_state 10 Hwt eq_refl Ha) as (s' & Hs' & Hg).
  exists s'. split; [apply Hs'; apply le_n|].
  apply (Hg 5%nat). unfold MICRO_LEVELS. lia.
Defined.

Lemma shift_round_trip_witness :
  reachable fresh_state /\
  shift_up 30 (shift_down fresh_state) = Some fresh_state.
Proof.
  assert (Hr : reachable fresh_state).
  { apply (reach_stepper 30 1 2 3 4 5 6 1 0 zeros fresh_state fresh_io).
    - unfold u32; lia.
    - reflexivity.
    - unfold zeros. all_u32.
    - vm_compute. reflexivity. }
  split; [exact Hr|].
  apply (shift_round_trip fresh_state Hr 30%nat). apply le_n.
Defined.

Lemma constructed_state_is_ACCEL_witness :
  stepper_stepper 30 1 2 3 4 5 6 1 0 zeros = Some (fresh_state, fresh_io) /\
  _state fresh_state = ACCEL /\
  In (digitalWrite 3 not_STEPPER_ENABLE) fresh_io.
Proof.
  assert (H : stepper_stepper 30 1 2 3 4 5 6 1 0 zeros
              = Some (fresh_state, fresh_io)) by (vm_compute; reflexivity).
  split; [exact H|].
  destruct (constructed_state_is_ACCEL 30 1 2 3 4 5 6 1 0 zeros
              fresh_state fresh_io H) as (H1 & _ & H2 & _).
  split; assumption.
Defined.

Lemma shift_up_terminates_iff_witness :
  well_typed zero_state /\ _shift zero_state = 0 /\
  max_delay_of zero_state = 0 /\
  (forall fuel, shift_up fuel zero_state = None) /\
  well_typed unscaled_state /\ _shift unscaled_state = 0 /\
  max_delay_of unscaled_state <> 0 /\
  exists fuel s', shift_up fuel unscaled_state = Some s'.
Proof.
  assert (Hz : well_typed zero_state) by typed.
  assert (Hu : well_typed unscaled_state) by typed.
  split; [exact Hz|]. split; [reflexivity|]. split; [reflexivity|].
  split.
  { apply (proj2 (proj1 shift_up_terminates_iff IEEE.arith zero_state
                    Hz eq_refl)). reflexivity. }
  split; [exact Hu|]. split; [reflexivity|].
  assert (Hn : max_delay_of unscaled_state <> 0)
    by (vm_compute; intros H; discriminate H).
  split; [exact Hn|].
  apply (proj1 (proj1 shift_up_terminates_iff IEEE.arith unscaled_state
                  Hu eq_refl)). exact Hn.
Defined.

End Instances.

(** * The public interface *)

(** ** Frames *)

Section FrameLemmas.
Context {FA : FloatArith}.

#[export] Instance same_identity_frame : Frame same_identity.
Proof.
  constructor; try (intros; repeat split; fail).
  unfold same_identity. intros a b c H1 H2.
  decompose [and] H1. decompose [and] H2. repeat split; congruence.
Qed.

#[export] Instance quiet_frame : Frame quiet.
Proof.
  constructor; try (intros; split; intros H; exact H).
  - unfold quiet. intros a b c [H1 H2] [H3 H4]. split; auto.
  - intros s. split; [reflexivity|intros H; exact H].
  - intros v s Hv. split; [intros H; exact H|intros _; exact Hv].
Qed.

Section WithFrame.
Variable R : stepper -> stepper -> Prop.
Context {HR : Frame R}.

Lemma for_from_frame body :
  (forall i s, R s (body i s)) ->
  forall n i s, R s (for_from i n body s).
Proof.
  intros Hb. induction n as [|n IH]; intros i s; simpl.
  - apply fr_refl.
  - eapply fr_trans; [apply Hb|apply IH].
Qed.

Lemma shift_down_frame s : R s (shift_down s).
Proof.
  unfold shift_down, for_levels.
  set (body := fun (i : nat) (s : stepper) => set_delay0 _ s).
  pose proof (for_from_frame body (fun i s => fr_delay0 _ s) MICRO_LEVELS 0%nat s)
    as H.
  set (s1 := for_from 0 MICRO_LEVELS body s) in *. clearbody s1.
  eapply fr_trans; [exact H|].
  eapply fr_trans; [apply fr_delay|].
  eapply fr_trans; [apply fr_target_delay|].
  eapply fr_trans; [apply fr_smooth_delay|]. apply fr_shift.
Qed.

Lemma shift_up_frame fuel s s' : shift_up fuel s = Some s' -> R s s'.
Proof.
  unfold shift_up. destruct (negb (_shift s =? 0)).
  - intros H; injection H as <-. apply fr_refl.
  - destruct (shift_up_loop _ _ _) as [r|]; [|discriminate].
    intros H; injection H as <-. unfold for_levels.
    set (body := fun (i : nat) (s : stepper) => set_delay0 _ s).
    pose proof (for_from_frame body (fun i s => fr_delay0 _ s) MICRO_LEVELS
                  0%nat (set_shift (fst r) s)) as H.
    set (s1 := for_from 0 MICRO_LEVELS body (set_shift (fst r) s)) in *.
    clearbody s1.
    eapply fr_trans; [apply fr_shift|].
    eapply fr_trans; [exact H|].
    eapply fr_trans; [apply fr_delay|].
    eapply fr_trans; [apply fr_target_delay|]. apply fr_smooth_delay.
Qed.

Lemma calibrate_position_frame fuel pos s s' :
  calibrate_position fuel pos s = Some s' -> R s s'.
Proof.
  unfold calibrate_position. destruct (negb (is_stopped s)).
  - intros H; injection H as <-. apply fr_refl.
  - cbv zeta. intros H. apply shift_up_frame in H.
    eapply fr_trans; [|exact H].
    generalize (shift_down_frame s). generalize (shift_down s).
    intros s1 H1. eapply fr_trans; [exact H1|apply fr_pos].
Qed.

Lemma acceleration_frame fuel accel s s' :
  acceleration fuel accel s = Some s' -> R s s'.
Proof.
  unfold acceleration. destruct (negb (is_stopped s)).
  - intros H; injection H as <-. apply fr_refl.
  - cbv zeta. intros H. apply shift_up_frame in H.
    eapply fr_trans; [|exact H]. unfold for_levels.
    generalize (shift_down_frame s). generalize (shift_down s).
    intros s1 H1.
    eapply fr_trans; [exact H1|].
    eapply fr_trans; [apply (fr_delay (get (_delay0 s1) (Z.to_nat (_micro s1))))|].
    apply for_from_frame. intros i x. apply fr_delay0.
Qed.

Lemma target_speed_frame fuel speed s s' :
  target_speed fuel speed s = Some s' -> R s s'.
Proof.
  unfold target_speed. cbv zeta.
  generalize (shift_down_frame s). generalize (shift_down s).
  intros s1 H1.
  set (s2 := set_target_delay _ s1).
  assert (H2 : R s1 s2) by apply fr_target_delay. clearbody s2.
  intros H. apply shift_up_frame in H.
  eapply fr_trans; [|exact H].
  eapply fr_trans; [exact H1|].
  eapply fr_trans; [exact H2|].
  destruct (negb (is_stopped s2) && negb (state_eqb (_state s2) OFF));
    [destruct (_target_delay s2 >? _delay s2)|];
    try apply fr_refl; apply fr_state; discriminate.
Qed.

Lemma on_frame now s : R s (snd (fst (on now s))).
Proof. apply fr_state. discriminate. Qed.

Lemma off_frame now s : R s (snd (fst (off now s))).
Proof.
  cbn [off fst snd].
  eapply fr_trans; [apply fr_accel_steps|].
  eapply fr_trans; [apply fr_delay|]. apply fr_state. discriminate.
Qed.

Lemma target_pos_frame pos s : R s (target_pos pos s).
Proof. apply fr_target_pos. Qed.

Lemma evolves_frame s0 s : evolves s0 s -> R s0 s.
Proof.
  induction 1 as
    [|fuel pos s s' _ IH Hc|now s _ IH|now s _ IH|fuel accel s s' _ IH Ha
     |pos s _ IH|fuel speed s s' _ IH Ht|s _ IH].
  - apply fr_refl.
  - eapply fr_trans; [exact IH|]. eapply calibrate_position_frame; exact Hc.
  - eapply fr_trans; [exact IH|]. apply on_frame.
  - eapply fr_trans; [exact IH|]. apply off_frame.
  - eapply fr_trans; [exact IH|]. eapply acceleration_frame; exact Ha.
  - eapply fr_trans; [exact IH|]. apply target_pos_frame.
  - eapply fr_trans; [exact IH|]. eapply target_speed_frame; exact Ht.
  - exact IH.
Qed.

End WithFrame.

End FrameLemmas.

(** ** How the two scaling functions compose *)

Section Scaling.
Context {FA : FloatArith}.

Lemma shr32_shl32 v k :
  0 <= k <= 32 -> shr32 (shl32 v k) k = v mod 2 ^ (32 - k).
Proof.
  intros Hk. unfold shl32, wrap32. rewrite shr32_div by lia.
  rewrite Z.shiftl_mul_pow2 by lia.
  assert (0 < 2 ^ k) by (apply Z.pow_pos_nonneg; lia).
  assert (0 < 2 ^ (32 - k)) by (apply Z.pow_pos_nonneg; lia).
  replace (2 ^ 32) with (2 ^ (32 - k) * 2 ^ k)
    by (rewrite <- Z.pow_add_r by lia; f_equal; lia).
  rewrite Z.mul_mod_distr_r by lia.
  apply Z.div_mul. lia.
Qed.

Lemma shr32_shl32_small v k :
  0 <= k <= 32 -> 0 <= v -> v * 2 ^ k < 2 ^ 32 -> shr32 (shl32 v k) k = v.
Proof.
  intros Hk Hv H. rewrite shr32_shl32 by assumption.
  apply Z.mod_small. split; [assumption|].
  assert (0 < 2 ^ k) by (apply Z.pow_pos_nonneg; lia).
  replace (2 ^ 32) with (2 ^ (32 - k) * 2 ^ k) in H
    by (rewrite <- Z.pow_add_r by lia; f_equal; lia).
  nia.
Qed.

Lemma put_get l : forall i, put l i (get l i) = l.
Proof.
  unfold get. induction l as [|h t IH]; intros [|i]; simpl; try reflexivity.
  now rewrite IH.
Qed.

Lemma for_from_fixed body s :
  (forall i, body i s = s) -> forall n i, for_from i n body s = s.
Proof.
  intros Hb. induction n as [|n IH]; intros i; simpl; [reflexivity|].
  rewrite Hb. apply IH.
Qed.

Lemma shift_down_unscaled s : _shift s = 0 -> shift_down s = s.
Proof.
  intros H0. unfold shift_down, for_levels.
  rewrite for_from_fixed.
  - destruct s. simpl in *. subst. unfold shr32. now rewrite !Z.shiftr_0_r.
  - intros i. rewrite H0. unfold shr32. rewrite Z.shiftr_0_r, put_get.
    now destruct s.
Qed.

Lemma shift_down_shift s : _shift (shift_down s) = 0.
Proof. reflexivity. Qed.

Lemma scale_up_by_0 s : well_typed s -> _shift s = 0 -> scale_up_by 0 s = s.
Proof.
  intros [H1 H2 H3 H4 H5 H6] H0. destruct s. simpl in *. subst.
  unfold scale_up_by. simpl.
  rewrite (map_same (fun v => shl32 v 0) u32) by (assumption || apply shl32_0).
  now rewrite !shl32_0 by assumption.
Qed.

Lemma shift_up_loop_above fuel sh m :
  SHIFT_THRESHOLD <= m -> shift_up_loop fuel sh m = Some (sh, m).
Proof.
  intros H. destruct fuel; simpl;
    destruct (Z.ltb_spec m SHIFT_THRESHOLD); try lia; reflexivity.
Qed.

(** [shift_up] on a state it has produced. *)
Lemma shift_up_again fuel fuel' s s' :
  well_typed s -> shift_up fuel s = Some s' -> shift_up fuel' s' = Some s'.
Proof.
  intros Hwt H. destruct (Z.eq_dec (_shift s) 0) as [H0|Hn].
  - destruct (shift_up_spec _ _ _ Hwt H0 H) as (k & Hk & -> & Hpos & Hth & Hmin).
    destruct (Z.eq_dec k 0) as [->|Hk0].
    + rewrite scale_up_by_0 by assumption.
      rewrite shift_up_eq by (assumption || apply Hwt).
      rewrite shift_up_loop_above by (simpl in Hth; lia).
      cbn [fst]. now rewrite scale_up_by_0.
    + now apply shift_up_nonzero_shift.
  - rewrite shift_up_nonzero_shift in H by assumption. injection H as <-.
    now apply shift_up_nonzero_shift.
Qed.

(** [shift_down] after [shift_up]: the three delays that [shift_up]
    inspects come back; the other delay fields come back modulo
    [2^(32 - _shift)]. *)
Lemma shift_up_then_down fuel s s' :
  well_typed s -> _shift s = 0 -> shift_up fuel s = Some s' ->
  _target_delay (shift_down s') = _target_delay s /\
  _smooth_delay (shift_down s') = _smooth_delay s /\
  get (_delay0 (shift_down s')) (MICRO_LEVELS - 1)
    = get (_delay0 s) (MICRO_LEVELS - 1) /\
  _delay (shift_down s') = _delay s mod 2 ^ (32 - _shift s') /\
  (forall m, get (_delay0 (shift_down s')) m
             = get (_delay0 s) m mod 2 ^ (32 - _shift s')) /\
  (forall v, 0 <= v <= max_delay_of s -> v mod 2 ^ (32 - _shift s') = v).
Proof.
  intros Hwt H0 H.
  destruct (shift_up_spec _ _ _ Hwt H0 H) as (k & Hk & -> & Hpos & Hth & Hmin).
  pose proof (max_delay_of_u32 s Hwt) as Hu.
  pose proof (doubling_no_overflow _ k Hu (proj1 Hk) Hmin) as Hno.
  assert (Hp : 0 < 2 ^ k) by (apply Z.pow_pos_nonneg; lia).
  assert (Hsmall : forall v, 0 <= v <= max_delay_of s ->
                             v mod 2 ^ (32 - k) = v).
  { intros v Hv. rewrite <- shr32_shl32 by lia.
    apply shr32_shl32_small; try lia. nia. }
  rewrite shift_down_eq by (cbn [scale_up_by _delay0]; rewrite length_map; apply Hwt).
  change (_shift (scale_up_by k s)) with k.
  cbn [scale_down_by scale_up_by _target_delay _smooth_delay _delay _delay0].
  rewrite map_map.
  rewrite !(get_map (fun v => shr32 (shl32 v k) k))
    by (now rewrite shl32_zero, shr32_zero).
  rewrite !shr32_shl32 by lia.
  pose proof Hwt as [_ H2 _ H4 H5 _].
  assert (Hg : u32 (get (_delay0 s) (MICRO_LEVELS - 1)))
    by (apply get_Forall; [unfold u32; lia|assumption]).
  unfold max_delay_of in Hsmall. unfold u32 in *.
  repeat split.
  - apply Hsmall. lia.
  - apply Hsmall. lia.
  - apply Hsmall. lia.
  - intros m. rewrite (get_map (fun v => shr32 (shl32 v k) k))
      by (now rewrite shl32_zero, shr32_zero).
    now rewrite shr32_shl32 by lia.
  - exact Hsmall.
Qed.

End Scaling.

(** ** Invariants of the states a caller can hold *)

Section Reachable.
Context {FA : FloatArith}.

(** X1 -- Every state that the constructor and the public member functions
    produce is in the form [shift_up] leaves: 32-bit delay fields that are
    multiples of [2^_shift], [_shift] at most 30 (no shift by 32 or more is
    ever executed), and the largest of the three inspected delays at or
    above [SHIFT_THRESHOLD]. *)
Theorem reachable_state_scaled (s : stepper) : reachable s -> scaled s.
Proof. exact (reachable_scaled s). Qed.

Lemma at_rest_frame s s' :
  same_identity s s' -> quiet s s' -> at_rest s -> at_rest s'.
Proof.
  unfold same_identity, quiet, at_rest.
  intros Hi [Q1 Q2] (A1 & A2 & A3 & A4 & A5). decompose [and] Hi.
  repeat split; try congruence; auto.
Qed.

Lemma reachable_at_rest s : reachable s -> at_rest s.
Proof.
  induction 1 as
    [fuel p1 p2 p3 p4 p5 p6 fv sd mem s io Hsd Hlen Hmem Hnew
    |fuel pos s s' _ IH Hc|now s _ IH|now s _ IH|fuel accel s s' _ IH Ha
    |pos s _ IH|fuel speed s s' _ IH Ht|s _ IH].
  - destruct (stepper_stepper_inv _ _ _ _ _ _ _ _ _ _ _ _ Hnew)
      as (s1 & E1 & E2 & _).
    eapply at_rest_frame;
      [eapply target_speed_frame; [typeclasses eauto|exact E2]
      |eapply target_speed_frame; [typeclasses eauto|exact E2]|].
    eapply at_rest_frame;
      [eapply acceleration_frame; [typeclasses eauto|exact E1]
      |eapply acceleration_frame; [typeclasses eauto|exact E1]|].
    repeat split. discriminate.
  - eapply at_rest_frame; [| |exact IH];
      eapply calibrate_position_frame; try exact Hc; typeclasses eauto.
  - eapply at_rest_frame; [| |exact IH]; apply on_frame; typeclasses eauto.
  - eapply at_rest_frame; [| |exact IH]; apply off_frame; typeclasses eauto.
  - eapply at_rest_frame; [| |exact IH];
      eapply acceleration_frame; try exact Ha; typeclasses eauto.
  - eapply at_rest_frame; [| |exact IH];
      apply target_pos_frame; typeclasses eauto.
  - eapply at_rest_frame; [| |exact IH];
      eapply target_speed_frame; try exact Ht; typeclasses eauto.
  - exact IH.
Qed.

(** X2 -- The engine never counts an acceleration step, never leaves microstep
    level 0 or direction 1, and never enters the phase [TARGET_SPEED]: in
    every reachable state it is stopped exactly when [_pos = _target_pos]. *)
Theorem reachable_state_at_rest (s : stepper) :
  reachable s ->
  _accel_steps s = 0 /\ _micro s = 0 /\ _dir s = 1 /\ _step s = 0 /\
  _state s <> TARGET_SPEED /\
  is_stopped s = (_pos s =? _target_pos s).
Proof.
  intros Hr. destruct (reachable_at_rest s Hr) as (A1 & A2 & A3 & A4 & A5).
  repeat split; try assumption.
  unfold is_stopped. rewrite A1. simpl. apply andb_true_r.
Qed.

(** X3 -- [target_pos(pos)] in a reachable state stores [pos] itself (the
    microstep level is 0), and the engine is stopped afterwards exactly
    when [pos] is the current position: targeting the current position
    cancels a move. *)
Theorem target_pos_sets_target (s : stepper) (pos : Z) :
  reachable s -> - 2 ^ 31 <= pos < 2 ^ 31 ->
  _target_pos (target_pos pos s) = pos /\
  is_stopped (target_pos pos s) = (_pos s =? pos).
Proof.
  intros Hr Hp. destruct (reachable_at_rest s Hr) as (A1 & A2 & _).
  assert (E : forall p, - 2 ^ 31 <= p < 2 ^ 31 ->
                        _target_pos (target_pos p s) = p).
  { intros p Hp'. unfold target_pos. cbn [set_target_pos _target_pos].
    rewrite A2. rewrite Z.shiftl_0_r. unfold wrap_int32.
    rewrite Z.mod_small; lia. }
  split; [now apply E|].
  unfold is_stopped. rewrite (E pos Hp).
  cbn [target_pos set_target_pos _pos _accel_steps]. rewrite A1.
  simpl. apply andb_true_r.
Qed.

(** X4 -- No member function writes the pins, the forward value, [_dir],
    [_micro] or [_step]: they stay as the engine had them. *)
Theorem identity_is_immutable (s0 s : stepper) :
  evolves s0 s -> same_identity s0 s.
Proof. intros H. now apply evolves_frame; [typeclasses eauto|]. Qed.

End Reachable.

(** ** The member functions on scaled states *)

Section Interface.
Context {FA : FloatArith}.

Lemma evolves_scaled s0 s : scaled s0 -> evolves s0 s -> scaled s.
Proof.
  intros H0. induction 1 as
    [|fuel pos s s' _ IH Hc|now s _ IH|now s _ IH|fuel accel s s' _ IH Ha
     |pos s _ IH|fuel speed s s' _ IH Ht|s _ IH].
  - exact H0.
  - destruct (is_stopped s) eqn:Hs.
    + eapply scaled_calibrate_position; [apply IH|exact Hs|exact Hc].
    + rewrite not_stopped_calibrate_position in Hc by assumption.
      now injection Hc as <-.
  - revert IH. now apply scaled_same_delays.
  - now apply scaled_off.
  - destruct (is_stopped s) eqn:Hs.
    + eapply scaled_acceleration; [apply IH|exact Hs|exact Ha].
    + rewrite not_stopped_acceleration in Ha by assumption.
      now injection Ha as <-.
  - revert IH. now apply scaled_same_delays.
  - eapply scaled_target_speed; [apply IH|exact Ht].
  - exact IH.
Qed.

(** The smooth delay in microseconds: what [shift_down] would store. *)
Lemma smooth_delay_shift_down s :
  length (_delay0 s) = MICRO_LEVELS ->
  _smooth_delay (shift_down s) = shr32 (_smooth_delay s) (_shift s).
Proof. intros H. now rewrite shift_down_eq. Qed.

Lemma smooth_delay_after_shift_up fuel b s' :
  well_typed b -> _shift b = 0 -> shift_up fuel b = Some s' ->
  _smooth_delay (shift_down s') = _smooth_delay b.
Proof. intros Hwt H0 H. apply (shift_up_then_down _ _ _ Hwt H0 H). Qed.

Lemma smooth_delay_step s s' :
  scaled s -> scaled s' ->
  _smooth_delay s' = _smooth_delay s -> _shift s' = _shift s ->
  _smooth_delay (shift_down s') = _smooth_delay (shift_down s).
Proof.
  intros H H' E1 E2.
  rewrite !smooth_delay_shift_down by (apply sc_typed; assumption).
  now rewrite E1, E2.
Qed.

Lemma evolves_smooth_delay s0 s :
  scaled s0 -> evolves s0 s ->
  _smooth_delay (shift_down s) = _smooth_delay (shift_down s0).
Proof.
  intros H0 Hev. induction Hev as
    [|fuel pos s s' Hev IH Hc|now s Hev IH|now s Hev IH
     |fuel accel s s' Hev IH Ha|pos s Hev IH|fuel speed s s' Hev IH Ht
     |s Hev IH].
  - reflexivity.
  - rewrite <- IH. pose proof (evolves_scaled _ _ H0 Hev) as Hs.
    pose proof (sc_typed _ Hs) as Hwt.
    destruct (is_stopped s) eqn:Hst.
    + rewrite calibrate_position_eq in Hc by (assumption || apply Hwt).
      assert (Hwb : well_typed (set_pos pos (scale_down_by (_shift s) s)))
        by (apply well_typed_set_pos, well_typed_scale_down;
            [assumption|apply Hwt]).
      rewrite (smooth_delay_after_shift_up _ _ _ Hwb eq_refl Hc).
      now rewrite smooth_delay_shift_down by apply Hwt.
    + rewrite not_stopped_calibrate_position in Hc by assumption.
      now injection Hc as <-.
  - rewrite <- IH. pose proof (evolves_scaled _ _ H0 Hev) as Hs.
    apply smooth_delay_step; try reflexivity; try assumption.
    revert Hs. now apply scaled_same_delays.
  - rewrite <- IH. pose proof (evolves_scaled _ _ H0 Hev) as Hs.
    apply smooth_delay_step; try reflexivity; try assumption.
    now apply scaled_off.
  - rewrite <- IH. pose proof (evolves_scaled _ _ H0 Hev) as Hs.
    pose proof (sc_typed _ Hs) as Hwt.
    destruct (is_stopped s) eqn:Hst.
    + rewrite acceleration_eq in Ha by (assumption || apply Hwt).
      rewrite (smooth_delay_after_shift_up _ _ _
                 (well_typed_acceleration_body accel s Hwt) eq_refl Ha).
      now rewrite smooth_delay_shift_down by apply Hwt.
    + rewrite not_stopped_acceleration in Ha by assumption.
      now injection Ha as <-.
  - rewrite <- IH. pose proof (evolves_scaled _ _ H0 Hev) as Hs.
    apply smooth_delay_step; try reflexivity; try assumption.
    revert Hs. now apply scaled_same_delays.
  - rewrite <- IH. pose proof (evolves_scaled _ _ H0 Hev) as Hs.
    pose proof (sc_typed _ Hs) as Hwt.
    rewrite target_speed_eq in Ht by apply Hwt.
    rewrite (smooth_delay_after_shift_up _ _ _
               (well_typed_target_speed_body speed s Hwt)
               (shift_target_speed_body speed s) Ht).
    rewrite smooth_delay_shift_down by apply Hwt.
    unfold target_speed_body. cbv zeta.
    destruct (negb (is_stopped s) && negb (state_eqb (_state s) OFF));
      [destruct (_ >? _)|]; reflexivity.
  - exact IH.
Qed.

(** X5 -- The smooth delay given at construction is never changed: whatever
    the public member functions do to a scaled state, the smooth delay in
    microseconds (the field as [shift_down] stores it) stays the same,
    and the state stays scaled. *)
Theorem smooth_delay_is_immutable (s0 s : stepper) :
  scaled s0 -> evolves s0 s ->
  scaled s /\ _smooth_delay (shift_down s) = _smooth_delay (shift_down s0).
Proof.
  intros H0 Hev. split.
  - now apply (evolves_scaled s0).
  - now apply evolves_smooth_delay.
Qed.

(** [shift_down] then [shift_up] on a scaled state. *)
Lemma scaled_round_trip s :
  scaled s ->
  forall fuel, (30 <= fuel)%nat ->
    shift_up fuel (scale_down_by (_shift s) s) = Some s.
Proof.
  intros Hsc. pose proof Hsc as [Hwt G1 G2 G3 G4 G5 G6 G7].
  pose proof (wt_shift _ Hwt) as [Hk0 _].
  set (k := _shift s) in *. set (d := scale_down_by k s).
  pose proof (well_typed_scale_down k s Hwt Hk0) as Hwd. fold d in Hwd.
  assert (Hsd : _shift d = 0) by reflexivity.
  pose proof (max_delay_of_u32 s Hwt) as Hu. unfold u32 in Hu.
  pose proof (max_delay_of_aligned s Hsc) as Ha. fold k in Ha.
  unfold aligned in Ha. rewrite SHIFT_THRESHOLD_eq in G6, G7.
  assert (Hp : 0 < 2 ^ k) by (apply Z.pow_pos_nonneg; lia).
  assert (HM : max_delay_of d * 2 ^ k = max_delay_of s).
  { unfold d. rewrite max_delay_of_scale_down, shr32_div by assumption.
    pose proof (Z.div_mod (max_delay_of s) (2 ^ k)). lia. }
  assert (Hpos : 0 < max_delay_of d) by nia.
  destruct (shift_up_returns_30 d Hwd Hsd Hpos) as [s' Hs'].
  intros fuel Hf. rewrite (Hs' fuel Hf). f_equal.
  destruct (shift_up_spec 30 d s' Hwd Hsd (Hs' _ (le_n _)))
    as (k' & Hk' & -> & _ & Hth & Hmin).
  rewrite SHIFT_THRESHOLD_eq in Hth.
  assert (k' = k) as ->.
  { destruct (Z.lt_trichotomy k' k) as [Hlt|[Heq|Hgt]]; [|assumption|].
    - exfalso. assert (Hk : k <> 0) by lia. specialize (G7 Hk).
      assert (2 ^ k' * 2 <= 2 ^ k).
      { replace k with (Z.succ (k - 1)) by lia.
        rewrite Z.pow_succ_r by lia.
        assert (2 ^ k' <= 2 ^ (k - 1))
          by (apply Z.pow_le_mono_r; lia). lia. }
      nia.
    - exfalso. specialize (Hmin k). rewrite SHIFT_THRESHOLD_eq in Hmin. lia. }
  unfold d. now apply scale_up_down.
Qed.

Lemma shift_up_set_pos fuel pos x :
  length (_delay0 x) = MICRO_LEVELS -> _shift x = 0 ->
  shift_up fuel (set_pos pos x) = option_map (set_pos pos) (shift_up fuel x).
Proof.
  intros Hl H0. rewrite !shift_up_eq by assumption.
  change (max_delay_of (set_pos pos x)) with (max_delay_of x).
  destruct (shift_up_loop fuel 0 (max_delay_of x)) as [r|]; reflexivity.
Qed.

(** X6 -- [calibrate_position(pos)] in a stopped reachable state returns, and
    changes [_pos] only: the scaling it undoes and redoes leaves every
    other field as it was.  It does not move the target: afterwards the
    engine is stopped only if [pos] is the target position. *)
Theorem calibrate_position_sets_pos (s : stepper) (pos : Z) :
  reachable s -> is_stopped s = true ->
  (forall fuel, (30 <= fuel)%nat ->
     calibrate_position fuel pos s = Some (set_pos pos s)) /\
  is_stopped (set_pos pos s) = (pos =? _target_pos s).
Proof.
  intros Hr Hst. split.
  - intros fuel Hf. pose proof (reachable_scaled s Hr) as Hsc.
    pose proof (sc_typed _ Hsc) as Hwt.
    rewrite calibrate_position_eq by (assumption || apply Hwt).
    rewrite shift_up_set_pos;
      [|cbn [scale_down_by _delay0]; rewrite length_map; apply Hwt
       |reflexivity].
    now rewrite scaled_round_trip.
  - destruct (reachable_at_rest s Hr) as (A1 & _).
    unfold is_stopped. cbn [set_pos _pos _target_pos _accel_steps].
    rewrite A1. simpl. apply andb_true_r.
Qed.

(** X7 -- [shift_down] twice is [shift_down] once, in every state. *)
Theorem shift_down_idempotent (s : stepper) :
  shift_down (shift_down s) = shift_down s.
Proof. apply shift_down_unscaled. apply shift_down_shift. Qed.

(** X8 -- [shift_up] twice is [shift_up] once: on the state it returned,
    [shift_up] returns at once (whatever the fuel) with the same state. *)
Theorem shift_up_idempotent (s s' : stepper) (fuel fuel' : nat) :
  well_typed s -> shift_up fuel s = Some s' -> shift_up fuel' s' = Some s'.
Proof. apply shift_up_again. Qed.

(** X9 -- [shift_down] after [shift_up] from [_shift = 0]: the three delays that
    [shift_up] inspects come back exactly; [_delay] and the other table
    entries lose the bits that the shift pushed beyond bit 31, that is
    they come back modulo [2^(32 - _shift)], hence exactly when they are
    not above the largest inspected delay. *)
Theorem shift_down_after_shift_up (s s' : stepper) (fuel : nat) :
  well_typed s -> _shift s = 0 -> shift_up fuel s = Some s' ->
  _target_delay (shift_down s') = _target_delay s /\
  _smooth_delay (shift_down s') = _smooth_delay s /\
  get (_delay0 (shift_down s')) (MICRO_LEVELS - 1)
    = get (_delay0 s) (MICRO_LEVELS - 1) /\
  _delay (shift_down s') = _delay s mod 2 ^ (32 - _shift s') /\
  (forall m, get (_delay0 (shift_down s')) m
             = get (_delay0 s) m mod 2 ^ (32 - _shift s')) /\
  (forall v, 0 <= v <= max_delay_of s -> v mod 2 ^ (32 - _shift s') = v).
Proof. apply shift_up_then_down. Qed.

Lemma target_delay_target_speed_body speed s :
  _target_delay (target_speed_body speed s)
  = double_to_u32 (ddiv lit_1e6 (float_to_double speed)).
Proof.
  unfold target_speed_body. cbv zeta.
  destruct (negb (is_stopped s) && negb (state_eqb (_state s) OFF));
    [destruct (_ >? _)|]; reflexivity.
Qed.

Lemma delays_target_speed_body speed s :
  length (_delay0 s) = MICRO_LEVELS ->
  _smooth_delay (target_speed_body speed s) = _smooth_delay (shift_down s) /\
  _delay0 (target_speed_body speed s) = _delay0 (shift_down s) /\
  _delay (target_speed_body speed s) = _delay (shift_down s).
Proof.
  intros Hl. rewrite shift_down_eq by assumption.
  unfold target_speed_body. cbv zeta.
  destruct (negb (is_stopped s) && negb (state_eqb (_state s) OFF));
    [destruct (_ >? _)|]; repeat split.
Qed.

(** X10 -- [target_speed(speed)] with a nonzero delay [1e6 / speed] returns
    and stores that delay: [shift_down] reads it back, together with the
    smooth delay and the start delay of the last level as they were; the
    state it returns is scaled. *)
Theorem target_speed_stores_delay (s : stepper) (speed : float) :
  well_typed s ->
  0 < double_to_u32 (ddiv lit_1e6 (float_to_double speed)) ->
  exists s',
    (forall fuel, (30 <= fuel)%nat -> target_speed fuel speed s = Some s') /\
    _target_delay (shift_down s')
    = double_to_u32 (ddiv lit_1e6 (float_to_double speed)) /\
    _smooth_delay (shift_down s') = _smooth_delay (shift_down s) /\
    get (_delay0 (shift_down s')) (MICRO_LEVELS - 1)
    = get (_delay0 (shift_down s)) (MICRO_LEVELS - 1) /\
    scaled s'.
Proof.
  intros Hwt Htd.
  pose proof (well_typed_target_speed_body speed s Hwt) as Hwb.
  pose proof (shift_target_speed_body speed s) as Hsb.
  pose proof (target_delay_target_speed_body speed s) as Et.
  destruct (delays_target_speed_body speed s (wt_len _ Hwt)) as (Es & E0 & _).
  assert (Hpos : 0 < max_delay_of (target_speed_body speed s)).
  { unfold max_delay_of. rewrite Et.
    pose proof (wt_smooth _ Hwb) as H1.
    assert (H2 : u32 (get (_delay0 (target_speed_body speed s))
                          (MICRO_LEVELS - 1)))
      by (apply get_Forall; [unfold u32; lia|apply Hwb]).
    unfold u32 in *. lia. }
  destruct (shift_up_returns_30 _ Hwb Hsb Hpos) as [s' Hs'].
  exists s'. split.
  { intros fuel Hf. rewrite target_speed_eq by apply Hwt. now apply Hs'. }
  destruct (shift_up_then_down _ _ _ Hwb Hsb (Hs' _ (le_n _)))
    as (T1 & T2 & T3 & _).
  rewrite T1, T2, T3, Et, Es, E0. do 3 (split; [reflexivity|]).
  eapply shift_up_scaled; [exact Hwb|exact Hsb|apply (Hs' _ (le_n _))].
Qed.

(** X11 -- [target_speed] leaves the phase as it is when the engine is stopped
    or [OFF]. *)
Theorem target_speed_keeps_phase (s : stepper) (speed : float) :
  well_typed s -> is_stopped s = true \/ _state s = OFF ->
  0 < Z.max (Z.max (shr32 (get (_delay0 s) (MICRO_LEVELS - 1)) (_shift s))
                   (double_to_u32 (ddiv lit_1e6 (float_to_double speed))))
            (shr32 (_smooth_delay s) (_shift s)) ->
  exists s',
    (forall fuel, (30 <= fuel)%nat -> target_speed fuel speed s = Some s') /\
    _state s' = _state s.
Proof.
  intros Hwt Hcase Hmax.
  pose proof (well_typed_target_speed_body speed s Hwt) as Hwb.
  pose proof (shift_target_speed_body speed s) as Hsb.
  assert (Hpos : 0 < max_delay_of (target_speed_body speed s)).
  { unfold max_delay_of. rewrite target_delay_target_speed_body.
    destruct (delays_target_speed_body speed s (wt_len _ Hwt))
      as (-> & -> & _).
    rewrite shift_down_eq by apply Hwt.
    cbn [scale_down_by _delay0 _smooth_delay].
    rewrite (get_map (fun v => shr32 v (_shift s))) by apply shr32_zero.
    exact Hmax. }
  destruct (shift_up_returns_30 _ Hwb Hsb Hpos) as [s' Hs'].
  exists s'. split.
  { intros fuel Hf. rewrite target_speed_eq by apply Hwt. now apply Hs'. }
  destruct (shift_up_same_motion _ _ _ (Hs' _ (le_n _))) as [-> _].
  unfold target_speed_body. cbv zeta.
  assert (Hc : negb (is_stopped s) && negb (state_eqb (_state s) OFF)
               = false).
  { destruct Hcase as [Hst|Hoff].
    - now rewrite Hst.
    - rewrite Hoff. apply andb_false_r. }
  rewrite Hc. reflexivity.
Qed.

Lemma delays_acceleration_body accel s :
  length (_delay0 s) = MICRO_LEVELS ->
  _smooth_delay (acceleration_body accel s) = _smooth_delay (shift_down s) /\
  _target_delay (acceleration_body accel s) = _target_delay (shift_down s) /\
  _delay (acceleration_body accel s)
  = get (_delay0 (shift_down s)) (Z.to_nat (_micro s)).
Proof. intros Hl. rewrite shift_down_eq by assumption. repeat split. Qed.

(** X12 -- [acceleration(accel)] in a stopped engine keeps the target delay and
    the smooth delay, replaces the table, and sets the current delay
    [_delay] to the start delay of the table as it was before the call
    (the entry is read before the table is rewritten), all up to the bits
    that the new shift pushes beyond bit 31. *)
Theorem acceleration_reads_old_table (s : stepper) (accel : float) :
  well_typed s -> is_stopped s = true ->
  0 < Z.max (Z.max (spec_start_delay accel (MICRO_LEVELS - 1))
                   (shr32 (_target_delay s) (_shift s)))
            (shr32 (_smooth_delay s) (_shift s)) ->
  exists s',
    (forall fuel, (30 <= fuel)%nat -> acceleration fuel accel s = Some s') /\
    _target_delay (shift_down s') = _target_delay (shift_down s) /\
    _smooth_delay (shift_down s') = _smooth_delay (shift_down s) /\
    _delay (shift_down s')
    = get (_delay0 (shift_down s)) (Z.to_nat (_micro s))
      mod 2 ^ (32 - _shift s') /\
    forall m, (m < MICRO_LEVELS)%nat ->
      get (_delay0 (shift_down s')) m
      = spec_start_delay accel m mod 2 ^ (32 - _shift s').
Proof.
  intros Hwt Hst Hpos. rewrite <- max_delay_of_acceleration_body in Hpos.
  pose proof (well_typed_acceleration_body accel s Hwt) as Hwb.
  assert (Hsb : _shift (acceleration_body accel s) = 0) by reflexivity.
  destruct (delays_acceleration_body accel s (wt_len _ Hwt)) as (Es & Et & Ed).
  destruct (shift_up_returns_30 _ Hwb Hsb Hpos) as [s' Hs'].
  exists s'. split.
  { intros fuel Hf. rewrite acceleration_eq by (assumption || apply Hwt).
    now apply Hs'. }
  destruct (shift_up_then_down _ _ _ Hwb Hsb (Hs' _ (le_n _)))
    as (T1 & T2 & _ & T4 & T5 & _).
  rewrite T1, T2, T4, Et, Es, Ed. do 3 (split; [reflexivity|]).
  intros m Hm. rewrite T5.
  cbn [acceleration_body set_delay0 _delay0]. now rewrite get_levels.
Qed.

(** X13 -- [off] does not stop the engine: after it the engine is stopped
    exactly when [_pos = _target_pos], so that away from the target
    [acceleration] and [calibrate_position] remain without effect; the
    phase is [OFF], the current delay is the start delay of the current
    level, and the timestamp returned is [now + 2] modulo [2^32]. *)
Theorem off_does_not_stop (s : stepper) (now : Z) :
  fst (fst (off now s)) = (now + 2) mod 2 ^ 32 /\
  _state (snd (fst (off now s))) = OFF /\
  _delay (snd (fst (off now s))) = get (_delay0 s) (Z.to_nat (_micro s)) /\
  is_stopped (snd (fst (off now s))) = (_pos s =? _target_pos s) /\
  (_pos s <> _target_pos s ->
   forall fuel accel pos,
     acceleration fuel accel (snd (fst (off now s)))
     = Some (snd (fst (off now s))) /\
     calibrate_position fuel pos (snd (fst (off now s)))
     = Some (snd (fst (off now s)))).
Proof.
  assert (E : is_stopped (snd (fst (off now s))) = (_pos s =? _target_pos s)).
  { unfold is_stopped.
    cbn [off fst snd set_state set_delay set_accel_steps _pos _target_pos
         _accel_steps].
    simpl (0 =? 0). apply andb_true_r. }
  split.
  { cbn [off fst]. unfold wrap32, ENABLE_US. f_equal. lia. }
  split; [reflexivity|]. split; [reflexivity|]. split; [exact E|].
  intros Hne fuel accel pos.
  assert (Hst : is_stopped (snd (fst (off now s))) = false)
    by (rewrite E; now apply Z.eqb_neq).
  split.
  - now apply not_stopped_acceleration.
  - now apply not_stopped_calibrate_position.
Qed.

End Interface.

(** ** The constructor, under IEEE arithmetic *)

Module Construction.

Import IEEE Bench BenchFacts.

Lemma default_table :
  map (spec_start_delay f10) (seq 0 MICRO_LEVELS)
  = [213769; 302316; 427539; 604632; 855079; 1209265].
Proof. vm_compute. reflexivity. Qed.

Lemma default_target_delay :
  double_to_u32 (ddiv lit_1e6 (float_to_double f10)) = 100000.
Proof. vm_compute. reflexivity. Qed.

(** The number of doublings is determined by the value doubled. *)
Lemma shift_unique M k1 k2 :
  0 < M -> 0 <= k1 -> 0 <= k2 ->
  SHIFT_THRESHOLD <= M * 2 ^ k1 ->
  (forall j, 0 <= j < k1 -> M * 2 ^ j < SHIFT_THRESHOLD) ->
  SHIFT_THRESHOLD <= M * 2 ^ k2 ->
  (forall j, 0 <= j < k2 -> M * 2 ^ j < SHIFT_THRESHOLD) ->
  k1 = k2.
Proof.
  intros HM H1 H2 T1 Min1 T2 Min2.
  destruct (Z.lt_trichotomy k1 k2) as [Hlt|[Heq|Hgt]]; [|assumption|].
  - specialize (Min2 k1). lia.
  - specialize (Min1 k2). lia.
Qed.

Lemma list6_ext (l : list Z) :
  length l = MICRO_LEVELS -> l = map (get l) (seq 0 MICRO_LEVELS).
Proof.
  intros H. unfold MICRO_LEVELS in *.
  destruct l as [|? [|? [|? [|? [|? [|? [|? ?]]]]]]]; try discriminate H.
  reflexivity.
Qed.

Lemma stepper_stepper_intro fuel p1 p2 p3 p4 p5 p6 fv sd mem s1 s :
  acceleration fuel (double_to_float DEFAULT_ACCEL)
    (mk_stepper p1 p2 p3 p4 p5 p6 fv 1 0 0 0 0 mem 0 sd
       (double_to_u32 lit_1e6) 0 0 ACCEL) = Some s1 ->
  target_speed fuel (double_to_float DEFAULT_TARGET_SPEED) s1 = Some s ->
  stepper_stepper fuel p1 p2 p3 p4 p5 p6 fv sd mem
  = Some (s, [ pinMode p1 OUTPUT; pinMode p2 OUTPUT; pinMode p3 OUTPUT;
               pinMode p4 OUTPUT; pinMode p5 OUTPUT; pinMode p6 OUTPUT;
               digitalWrite p1 fv; digitalWrite p3 not_STEPPER_ENABLE;
               digitalWrite p4 0; digitalWrite p5 0; digitalWrite p6 0 ]).
Proof.
  intros H1 H2. unfold stepper_stepper. rewrite H1, H2. reflexivity.
Qed.

Lemma default_entry m :
  (m < MICRO_LEVELS)%nat ->
  spec_start_delay f10 m
  = get [213769; 302316; 427539; 604632; 855079; 1209265] m.
Proof.
  intros Hm. rewrite <- default_table. symmetry. now apply get_levels.
Qed.

Lemma default_entry_le m :
  0 <= get [213769; 302316; 427539; 604632; 855079; 1209265] m <= 1209265.
Proof.
  unfold get. do 6 (destruct m as [|m]; [simpl; lia|]).
  destruct m; simpl; lia.
Qed.

(** X14 -- The constructor returns for every smooth delay and whatever the
    storage of [_delay0] held.  The engine it returns is scaled and
    stopped at position 0 in phase [ACCEL]; read back by [shift_down],
    its table is the one of [DEFAULT_ACCEL], its target delay is
    [1e6 / DEFAULT_TARGET_SPEED = 100000] and its smooth delay is the
    argument; its current delay [_delay] is the first cell of the storage
    as the constructor found it (modulo [2^(32 - _shift)]), since
    [acceleration] reads [_delay0[0]] before anything has written it. *)
Theorem construction_result
    (p1 p2 p3 p4 p5 p6 fv sd : Z) (mem : list Z) :
  u32 sd -> length mem = MICRO_LEVELS -> Forall u32 mem ->
  exists s,
    (forall fuel, (30 <= fuel)%nat ->
       stepper_stepper fuel p1 p2 p3 p4 p5 p6 fv sd mem
       = Some (s, [ pinMode p1 OUTPUT; pinMode p2 OUTPUT; pinMode p3 OUTPUT;
                    pinMode p4 OUTPUT; pinMode p5 OUTPUT; pinMode p6 OUTPUT;
                    digitalWrite p1 fv; digitalWrite p3 not_STEPPER_ENABLE;
                    digitalWrite p4 0; digitalWrite p5 0;
                    digitalWrite p6 0 ])) /\
    scaled s /\ is_stopped s = true /\ _pos s = 0 /\ _state s = ACCEL /\
    _delay0 (shift_down s)
    = [213769; 302316; 427539; 604632; 855079; 1209265] /\
    _target_delay (shift_down s) = 100000 /\
    _smooth_delay (shift_down s) = sd /\
    _delay (shift_down s) = get mem 0 mod 2 ^ (32 - _shift s) /\
    (sd <= 1209265 -> _shift s = 10).
Proof.
  intros Hsd Hlen Hmem.
  pose proof (well_typed_initial p1 p2 p3 p4 p5 p6 fv sd mem Hsd Hlen Hmem)
    as Hw0.
  set (init := mk_stepper p1 p2 p3 p4 p5 p6 fv 1 0 0 0 0 mem 0 sd
                 (double_to_u32 lit_1e6) 0 0 ACCEL) in *.
  assert (Hst0 : is_stopped init = true) by reflexivity.
  assert (Hl0 : length (_delay0 init) = MICRO_LEVELS) by exact Hlen.
  (* the call of [acceleration] *)
  pose proof (well_typed_acceleration_body f10 init Hw0) as Hwb1.
  destruct (delays_acceleration_body f10 init Hl0) as (Es1 & Et1 & Ed1).
  assert (Esd0 : shift_down init = init) by (now apply shift_down_unscaled).
  rewrite Esd0 in Es1, Et1, Ed1.
  change (_smooth_delay init) with sd in Es1.
  change (_target_delay init) with (double_to_u32 lit_1e6) in Et1.
  rewrite double_to_u32_1e6 in Et1.
  change (get (_delay0 init) (Z.to_nat (_micro init))) with (get mem 0) in Ed1.
  assert (Etab1 : forall m, (m < MICRO_LEVELS)%nat ->
            get (_delay0 (acceleration_body f10 init)) m
            = get [213769; 302316; 427539; 604632; 855079; 1209265] m).
  { intros m Hm. cbn [acceleration_body set_delay0 _delay0].
    rewrite get_levels by assumption. now apply default_entry. }
  assert (Hsb1 : _shift (acceleration_body f10 init) = 0) by reflexivity.
  assert (Hm1 : same_motion init (acceleration_body f10 init))
    by (repeat split).
  assert (Hacc : forall fuel s1,
            shift_up fuel (acceleration_body f10 init) = Some s1 ->
            acceleration fuel (double_to_float DEFAULT_ACCEL) init = Some s1).
  { intros fuel s1 H. change (double_to_float DEFAULT_ACCEL) with f10.
    now rewrite acceleration_eq. }
  set (b1 := acceleration_body f10 init) in *. clearbody b1.
  assert (E51 : get (_delay0 b1) (MICRO_LEVELS - 1) = 1209265)
    by (now rewrite Etab1 by (unfold MICRO_LEVELS; lia)).
  assert (Hmax1 : max_delay_of b1 = Z.max 1209265 sd).
  { unfold max_delay_of. rewrite E51, Et1, Es1. lia. }
  unfold u32 in Hsd.
  assert (Hpos1 : 0 < max_delay_of b1) by lia.
  destruct (shift_up_returns_30 b1 Hwb1 Hsb1 Hpos1) as [s1 Hs1].
  pose proof (Hs1 30%nat (le_n _)) as Hs1'.
  destruct (shift_up_then_down _ _ _ Hwb1 Hsb1 Hs1')
    as (T1 & S1 & _ & D1 & G1 & Small1).
  destruct (shift_up_spec _ _ _ Hwb1 Hsb1 Hs1')
    as (k1 & Hk1 & Ek1 & _ & Hth1 & Hmin1).
  assert (Esh1 : _shift s1 = k1) by (now rewrite Ek1). clear Ek1.
  pose proof (shift_up_scaled _ _ _ Hwb1 Hsb1 Hs1') as Hsc1.
  pose proof (sc_typed _ Hsc1) as Hw1.
  pose proof (same_motion_trans _ _ _ Hm1 (shift_up_same_motion _ _ _ Hs1'))
    as Hm01.
  assert (Hst1 : is_stopped s1 = true)
    by (now rewrite (is_stopped_same_motion _ _ Hm01)).
  (* the call of [target_speed] *)
  pose proof (well_typed_target_speed_body f10 s1 Hw1) as Hwb2.
  pose proof (shift_target_speed_body f10 s1) as Hsb2.
  pose proof (target_delay_target_speed_body f10 s1) as Et2.
  rewrite default_target_delay in Et2.
  destruct (delays_target_speed_body f10 s1 (wt_len _ Hw1)) as (Es2 & E02 & Ed2).
  assert (Hm2 : same_motion s1 (target_speed_body f10 s1)).
  { unfold target_speed_body. cbv zeta. rewrite Hst1. cbn [negb andb].
    repeat split. }
  assert (Hts : forall fuel s,
            shift_up fuel (target_speed_body f10 s1) = Some s ->
            target_speed fuel (double_to_float DEFAULT_TARGET_SPEED) s1
            = Some s).
  { intros fuel s H. change (double_to_float DEFAULT_TARGET_SPEED) with f10.
    now rewrite target_speed_eq by apply Hw1. }
  set (b2 := target_speed_body f10 s1) in *. clearbody b2.
  rewrite S1, Es1 in Es2. rewrite D1, Ed1, Esh1 in Ed2.
  assert (Etab2 : forall m, (m < MICRO_LEVELS)%nat ->
            get (_delay0 b2) m
            = get [213769; 302316; 427539; 604632; 855079; 1209265] m).
  { intros m Hm. rewrite E02, G1, Etab1 by assumption.
    apply Small1. pose proof (default_entry_le m). lia. }
  assert (E52 : get (_delay0 b2) (MICRO_LEVELS - 1) = 1209265)
    by (now rewrite Etab2 by (unfold MICRO_LEVELS; lia)).
  assert (Hmax2 : max_delay_of b2 = Z.max 1209265 sd).
  { unfold max_delay_of. rewrite E52, Et2, Es2. lia. }
  assert (Hpos2 : 0 < max_delay_of b2) by lia.
  destruct (shift_up_returns_30 b2 Hwb2 Hsb2 Hpos2) as [s Hs].
  pose proof (Hs 30%nat (le_n _)) as Hs'.
  destruct (shift_up_then_down _ _ _ Hwb2 Hsb2 Hs')
    as (T2 & S2 & _ & D2 & G2 & Small2).
  destruct (shift_up_spec _ _ _ Hwb2 Hsb2 Hs')
    as (k2 & Hk2 & Ek2 & _ & Hth2 & Hmin2).
  assert (Esh2 : _shift s = k2) by (now rewrite Ek2). clear Ek2.
  pose proof (shift_up_scaled _ _ _ Hwb2 Hsb2 Hs') as Hsc2.
  rewrite Hmax1 in Hth1, Hmin1. rewrite Hmax2 in Hth2, Hmin2.
  assert (Ek : k1 = k2)
    by (apply (shift_unique (Z.max 1209265 sd)); try assumption; lia).
  pose proof (same_motion_trans _ _ _ Hm01
                (same_motion_trans _ _ _ Hm2
                   (shift_up_same_motion _ _ _ Hs'))) as Hm.
  exists s. split.
  { intros fuel Hf. apply (stepper_stepper_intro _ _ _ _ _ _ _ _ _ _ s1).
    - apply Hacc. now apply Hs1.
    - apply Hts. now apply Hs. }
  split; [exact Hsc2|].
  split; [now rewrite (is_stopped_same_motion _ _ Hm)|].
  destruct Hm as (Hstate & Hp & _).
  split; [exact Hp|]. split; [exact Hstate|].
  split.
  { assert (Hlen2 : length (_delay0 (shift_down s)) = MICRO_LEVELS).
    { rewrite shift_down_eq by apply (sc_typed _ Hsc2).
      cbn [scale_down_by _delay0]. rewrite length_map.
      apply (sc_typed _ Hsc2). }
    rewrite (list6_ext _ Hlen2).
    change [213769; 302316; 427539; 604632; 855079; 1209265]
      with (map (get [213769; 302316; 427539; 604632; 855079; 1209265])
                (seq 0 MICRO_LEVELS)).
    apply map_ext_in. intros m Hm. apply in_seq in Hm.
    rewrite G2, Etab2 by lia.
    apply Small2. pose proof (default_entry_le m). lia. }
  split; [now rewrite T2|]. split; [now rewrite S2|].
  split.
  { rewrite D2, Ed2, Esh2, Ek. apply Z.mod_mod.
    apply Z.pow_nonzero; lia. }
  intros Hle. rewrite Esh2.
  rewrite Z.max_l in Hth2, Hmin2 by lia.
  apply (shift_unique 1209265); try lia; try assumption.
  - rewrite SHIFT_THRESHOLD_eq. lia.
  - intros j Hj. rewrite SHIFT_THRESHOLD_eq.
    assert (2 ^ j <= 2 ^ 9) by (apply Z.pow_le_mono_r; lia). lia.
Qed.

End Construction.

(** ** The interface at concrete engines *)

Module InterfaceInstances.

Import IEEE Bench BenchFacts Construction.

Lemma accelerating_state_reachable : reachable accelerating_state.
Proof.
  destruct accelerating_state_reached as (b & Hb & <-).
  apply reach_target_pos.
  apply (reach_acceleration 30 f10 fresh_state b); [|exact Hb].
  exact fresh_state_reachable.
Qed.

Lemma reachable_state_scaled_witness :
  reachable fresh_state /\ scaled fresh_state.
Proof.
  assert (Hr : reachable fresh_state).
  { apply (reach_stepper 30 1 2 3 4 5 6 1 0 zeros fresh_state fresh_io).
    - unfold u32; lia.
    - reflexivity.
    - unfold zeros. all_u32.
    - vm_compute. reflexivity. }
  split; [exact Hr|]. exact (reachable_state_scaled fresh_state Hr).
Defined.

Lemma reachable_state_at_rest_witness :
  reachable fresh_state /\
  _accel_steps fresh_state = 0 /\ _micro fresh_state = 0 /\
  _state fresh_state <> TARGET_SPEED /\
  is_stopped fresh_state = (_pos fresh_state =? _target_pos fresh_state).
Proof.
  assert (Hr : reachable fresh_state).
  { apply (reach_stepper 30 1 2 3 4 5 6 1 0 zeros fresh_state fresh_io).
    - unfold u32; lia.
    - reflexivity.
    - unfold zeros. all_u32.
    - vm_compute. reflexivity. }
  split; [exact Hr|].
  destruct (reachable_state_at_rest fresh_state Hr)
    as (H1 & H2 & _ & _ & H5 & H6).
  repeat split; assumption.
Defined.

Lemma target_pos_sets_target_witness :
  reachable fresh_state /\ - 2 ^ 31 <= 5 < 2 ^ 31 /\
  _target_pos (target_pos 5 fresh_state) = 5 /\
  is_stopped (target_pos 5 fresh_state) = (_pos fresh_state =? 5).
Proof.
  assert (Hr : reachable fresh_state).
  { apply (reach_stepper 30 1 2 3 4 5 6 1 0 zeros fresh_state fresh_io).
    - unfold u32; lia.
    - reflexivity.
    - unfold zeros. all_u32.
    - vm_compute. reflexivity. }
  assert (Hp : - 2 ^ 31 <= 5 < 2 ^ 31) by lia.
  split; [exact Hr|]. split; [exact Hp|].
  exact (target_pos_sets_target fresh_state 5 Hr Hp).
Defined.

Lemma identity_is_immutable_witness :
  evolves accelerating_state decelerating_state /\
  same_identity accelerating_state decelerating_state.
Proof.
  assert (He : evolves accelerating_state decelerating_state).
  { apply (ev_target_speed accelerating_state 30 f1 accelerating_state).
    - apply ev_here.
    - vm_compute. reflexivity. }
  split; [exact He|].
  exact (identity_is_immutable accelerating_state decelerating_state He).
Defined.

Lemma smooth_delay_is_immutable_witness :
  scaled fresh_state /\ evolves fresh_state fast_state /\
  scaled fast_state /\
  _smooth_delay (shift_down fast_state)
  = _smooth_delay (shift_down fresh_state).
Proof.
  assert (Hs : scaled fresh_state).
  { constructor; [typed|simpl; lia|..]; simpl;
      try (unfold aligned; reflexivity); try lia; try discriminate.
    repeat first [apply Forall_nil
                 | apply Forall_cons; [unfold aligned; reflexivity|]]. }
  assert (He : evolves fresh_state fast_state).
  { apply (ev_target_speed fresh_state 30 f2e6 fresh_state).
    - apply ev_here.
    - vm_compute. reflexivity. }
  split; [exact Hs|]. split; [exact He|].
  exact (smooth_delay_is_immutable fresh_state fast_state Hs He).
Defined.

Lemma calibrate_position_sets_pos_witness :
  reachable fresh_state /\ is_stopped fresh_state = true /\
  calibrate_position 30 7 fresh_state = Some (set_pos 7 fresh_state) /\
  is_stopped (set_pos 7 fresh_state) = false.
Proof.
  assert (Hr : reachable fresh_state).
  { apply (reach_stepper 30 1 2 3 4 5 6 1 0 zeros fresh_state fresh_io).
    - unfold u32; lia.
    - reflexivity.
    - unfold zeros. all_u32.
    - vm_compute. reflexivity. }
  split; [exact Hr|]. split; [reflexivity|].
  destruct (calibrate_position_sets_pos fresh_state 7 Hr eq_refl) as [H1 H2].
  split; [apply H1; apply le_n|exact H2].
Defined.

Lemma shift_up_idempotent_witness :
  well_typed unscaled_state /\
  shift_up 30 unscaled_state = Some fresh_state /\
  shift_up 0 fresh_state = Some fresh_state.
Proof.
  assert (Hwt : well_typed unscaled_state) by typed.
  assert (H : shift_up 30 unscaled_state = Some fresh_state)
    by (vm_compute; reflexivity).
  split; [exact Hwt|]. split; [exact H|].
  exact (shift_up_idempotent unscaled_state fresh_state 30 0 Hwt H).
Defined.

Lemma shift_down_after_shift_up_witness :
  well_typed unscaled_state /\ _shift unscaled_state = 0 /\
  shift_up 30 unscaled_state = Some fresh_state /\
  _target_delay (shift_down fresh_state) = _target_delay unscaled_state /\
  _delay (shift_down fresh_state)
  = _delay unscaled_state mod 2 ^ (32 - _shift fresh_state).
Proof.
  assert (Hwt : well_typed unscaled_state) by typed.
  assert (H : shift_up 30 unscaled_state = Some fresh_state)
    by (vm_compute; reflexivity).
  split; [exact Hwt|]. split; [reflexivity|]. split; [exact H|].
  destruct (shift_down_after_shift_up unscaled_state fresh_state 30
              Hwt eq_refl H) as (H1 & _ & _ & H4 & _).
  split; assumption.
Defined.

Lemma target_speed_stores_delay_witness :
  well_typed fresh_state /\
  0 < double_to_u32 (ddiv lit_1e6 (float_to_double f1)) /\
  exists s',
    target_speed 30 f1 fresh_state = Some s' /\
    _target_delay (shift_down s') = 1000000.
Proof.
  assert (Hwt : well_typed fresh_state) by typed.
  assert (Hp : 0 < double_to_u32 (ddiv lit_1e6 (float_to_double f1)))
    by (vm_compute; reflexivity).
  split; [exact Hwt|]. split; [exact Hp|].
  destruct (target_speed_stores_delay fresh_state f1 Hwt Hp)
    as (s' & Hs' & Ht & _).
  exists s'. split; [apply Hs'; apply le_n|].
  rewrite Ht. vm_compute. reflexivity.
Defined.

Lemma target_speed_keeps_phase_witness :
  well_typed fresh_state /\ is_stopped fresh_state = true /\
  exists s',
    target_speed 30 f1 fresh_state = Some s' /\
    _state s' = _state fresh_state.
Proof.
  assert (Hwt : well_typed fresh_state) by typed.
  split; [exact Hwt|]. split; [reflexivity|].
  destruct (target_speed_keeps_phase fresh_state f1 Hwt (or_introl eq_refl))
    as (s' & Hs' & Hst); [vm_compute; reflexivity|].
  exists s'. split; [apply Hs'; apply le_n|exact Hst].
Defined.

Lemma acceleration_reads_old_table_witness :
  well_typed fresh_state /\ is_stopped fresh_state = true /\
  exists s',
    acceleration 30 (float_of_int 1000) fresh_state = Some s' /\
    _delay (shift_down s') = 213769 /\
    get (_delay0 (shift_down s')) 0 = 21376.
Proof.
  assert (Hwt : well_typed fresh_state) by typed.
  split; [exact Hwt|]. split; [reflexivity|].
  destruct (acceleration_reads_old_table fresh_state (float_of_int 1000)
              Hwt eq_refl) as (s' & Hs' & _); [vm_compute; reflexivity|].
  exists s'. specialize (Hs' 30%nat (le_n _)). split; [exact Hs'|].
  vm_compute in Hs'. injection Hs' as <-.
  split; vm_compute; reflexivity.
Defined.

Lemma construction_result_witness :
  u32 0 /\ length zeros = MICRO_LEVELS /\ Forall u32 zeros /\
  exists s,
    stepper_stepper 30 1 2 3 4 5 6 1 0 zeros = Some (s, fresh_io) /\
    _target_delay (shift_down s) = 100000 /\ _shift s = 10.
Proof.
  assert (H1 : u32 0) by (unfold u32; lia).
  assert (H2 : length zeros = MICRO_LEVELS) by reflexivity.
  assert (H3 : Forall u32 zeros) by (unfold zeros; all_u32).
  split; [exact H1|]. split; [exact H2|]. split; [exact H3|].
  destruct (construction_result 1 2 3 4 5 6 1 0 zeros H1 H2 H3)
    as (s & Hs & _ & _ & _ & _ & _ & Ht & _ & _ & Hk).
  exists s. split; [apply Hs; apply le_n|].
  split; [exact Ht|]. apply Hk. lia.
Defined.

End InterfaceInstances.

(** * The round trip and the ramp table, in general *)

(** ** [shift_down] then [shift_up] on any state with 32-bit fields *)

Section LossyRoundTrip.
Context {FA : FloatArith}.

Lemma doublings_unique M k1 k2 :
  0 < M -> 0 <= k1 -> 0 <= k2 ->
  SHIFT_THRESHOLD <= M * 2 ^ k1 ->
  (forall j, 0 <= j < k1 -> M * 2 ^ j < SHIFT_THRESHOLD) ->
  SHIFT_THRESHOLD <= M * 2 ^ k2 ->
  (forall j, 0 <= j < k2 -> M * 2 ^ j < SHIFT_THRESHOLD) ->
  k1 = k2.
Proof.
  intros HM H1 H2 T1 Min1 T2 Min2.
  destruct (Z.lt_trichotomy k1 k2) as [Hlt|[Heq|Hgt]]; [|assumption|].
  - specialize (Min2 k1). lia.
  - specialize (Min1 k2). lia.
Qed.

(** Shifting down and up again clears the low bits. *)
Lemma shl32_shr32_floor v k :
  u32 v -> 0 <= k -> shl32 (shr32 v k) k = v - v mod 2 ^ k.
Proof.
  unfold u32. intros Hv Hk.
  assert (Hp : 0 < 2 ^ k) by (apply Z.pow_pos_nonneg; lia).
  pose proof (Z.div_mod v (2 ^ k)) as Hd.
  pose proof (Z.mod_pos_bound v (2 ^ k) Hp) as Hm.
  assert (0 <= v / 2 ^ k) by (apply Z.div_pos; lia).
  rewrite shr32_div by assumption.
  rewrite shl32_small; lia.
Qed.

(** The largest inspected delay of a state in the band where [shift_up]
    leaves it, once shifted down: [_shift] is the number of doublings
    that brings it back to the threshold. *)
Lemma band_doublings M k :
  0 <= k <= 30 -> SHIFT_THRESHOLD <= M ->
  (k <> 0 -> M < 2 * SHIFT_THRESHOLD) ->
  0 < shr32 M k /\
  SHIFT_THRESHOLD <= shr32 M k * 2 ^ k /\
  (forall j, 0 <= j < k -> shr32 M k * 2 ^ j < SHIFT_THRESHOLD).
Proof.
  rewrite SHIFT_THRESHOLD_eq. intros Hk Hfloor Hceil.
  assert (Hp : 0 < 2 ^ k) by (apply Z.pow_pos_nonneg; lia).
  rewrite shr32_div by lia.
  assert (E30 : 2 ^ 30 = 2 ^ (30 - k) * 2 ^ k)
    by (rewrite <- Z.pow_add_r by lia; f_equal; lia).
  assert (Hq : 2 ^ (30 - k) <= M / 2 ^ k).
  { apply Z.div_le_lower_bound; lia. }
  assert (0 < 2 ^ (30 - k)) by (apply Z.pow_pos_nonneg; lia).
  split; [lia|]. split; [nia|].
  intros j Hj. assert (Hk0 : k <> 0) by lia. specialize (Hceil Hk0).
  assert (Hu : M / 2 ^ k < 2 ^ (31 - k)).
  { apply Z.div_lt_upper_bound; [lia|].
    replace (2 ^ k * 2 ^ (31 - k)) with (2 ^ 31)
      by (rewrite <- Z.pow_add_r by lia; f_equal; lia).
    lia. }
  assert (Hj2 : 2 ^ j <= 2 ^ (k - 1)) by (apply Z.pow_le_mono_r; lia).
  assert (E : 2 ^ (31 - k) * 2 ^ (k - 1) = 2 ^ 30)
    by (rewrite <- Z.pow_add_r by lia; f_equal; lia).
  assert (0 < 2 ^ j) by (apply Z.pow_pos_nonneg; lia).
  assert (0 <= M / 2 ^ k) by lia.
  nia.
Qed.

(** C8 (amended) -- The round trip [shift_down] then [shift_up], for every
    state with 32-bit fields.  It does not return when the largest
    inspected delay shifted down is 0; otherwise it returns, each delay
    field being shifted down by the old [_shift] and up by the new one,
    the smallest that brings that largest delay to the threshold.  When
    the largest inspected delay is in the band where [shift_up] leaves it
    (at least [SHIFT_THRESHOLD], below twice that when [_shift <> 0],
    [_shift <= 30]) the new shift is the old one and every delay field
    comes back with its [_shift] low bits cleared, [v - v mod 2^_shift]:
    below its old value by less than [2^_shift], and equal to it exactly
    when it was a multiple of [2^_shift]. *)
Theorem shift_round_trip_clears_low_bits (s : stepper) :
  well_typed s ->
  (shr32 (max_delay_of s) (_shift s) = 0 ->
   forall fuel, shift_up fuel (shift_down s) = None) /\
  (shr32 (max_delay_of s) (_shift s) <> 0 ->
   exists s',
     (forall fuel, (30 <= fuel)%nat ->
        shift_up fuel (shift_down s) = Some s') /\
     s' = scale_up_by (_shift s') (scale_down_by (_shift s) s) /\
     SHIFT_THRESHOLD
       <= shr32 (max_delay_of s) (_shift s) * 2 ^ _shift s' /\
     (forall j, 0 <= j < _shift s' ->
        shr32 (max_delay_of s) (_shift s) * 2 ^ j < SHIFT_THRESHOLD) /\
     (_shift s <= 30 -> SHIFT_THRESHOLD <= max_delay_of s ->
      (_shift s <> 0 -> max_delay_of s < 2 * SHIFT_THRESHOLD) ->
      _shift s' = _shift s /\
      _delay s' = _delay s - _delay s mod 2 ^ _shift s /\
      _target_delay s' = _target_delay s - _target_delay s mod 2 ^ _shift s /\
      _smooth_delay s' = _smooth_delay s - _smooth_delay s mod 2 ^ _shift s /\
      (forall m, get (_delay0 s') m
                 = get (_delay0 s) m - get (_delay0 s) m mod 2 ^ _shift s) /\
      (scaled s -> s' = s))).
Proof.
  intros Hwt. pose proof (wt_shift _ Hwt) as [Hk0 _].
  rewrite shift_down_eq by apply Hwt.
  set (k := _shift s) in *. set (d := scale_down_by k s).
  pose proof (well_typed_scale_down k s Hwt Hk0) as Hwd. fold d in Hwd.
  assert (Hsd : _shift d = 0) by reflexivity.
  assert (HM : max_delay_of d = shr32 (max_delay_of s) k)
    by (now apply max_delay_of_scale_down).
  split.
  - intros Hz fuel. apply shift_up_hangs; [apply Hwd|exact Hsd|].
    now rewrite HM.
  - intros Hnz. pose proof (max_delay_of_u32 d Hwd) as Hu.
    rewrite HM in Hu. unfold u32 in Hu.
    assert (Hpos : 0 < max_delay_of d) by (rewrite HM; lia).
    destruct (shift_up_returns_30 d Hwd Hsd Hpos) as [s' Hs'].
    exists s'. split; [exact Hs'|].
    destruct (shift_up_spec 30 d s' Hwd Hsd (Hs' _ (le_n _)))
      as (k' & Hk' & -> & _ & Hth & Hmin).
    change (_shift (scale_up_by k' d)) with k'. rewrite HM in Hth, Hmin.
    split; [reflexivity|]. split; [exact Hth|]. split; [exact Hmin|].
    intros Hk30 Hfloor Hceil.
    destruct (band_doublings (max_delay_of s) k (conj Hk0 Hk30) Hfloor Hceil)
      as (Bpos & Bth & Bmin).
    assert (Ek : k' = k).
    { apply (doublings_unique (shr32 (max_delay_of s) k));
        try assumption; lia. }
    subst k'. split; [reflexivity|].
    pose proof Hwt as [_ H2 H3 H4 H5 _].
    cbn [scale_up_by d scale_down_by _delay _target_delay _smooth_delay
         _delay0].
    rewrite !shl32_shr32_floor by assumption.
    do 3 (split; [reflexivity|]). split.
    + intros m. rewrite map_map.
      rewrite (get_map (fun v => shl32 (shr32 v k) k))
        by (now rewrite shr32_zero, shl32_zero).
      apply shl32_shr32_floor; [|assumption].
      apply get_Forall; [unfold u32; lia|assumption].
    + intros Hsc. unfold d.
      apply scale_up_down; try assumption; try reflexivity; apply Hsc.
Qed.

End LossyRoundTrip.

(** ** The ramp table, for every acceleration *)

Section RampTableLaw.
Context {FA : FloatArith}.



End RampTableLaw.

(** ** The general statements at concrete engines *)

Module GeneralEvaluation.

Import IEEE Bench Bench2 BenchFacts.


(** C8, as stated, fails: on a state with 32-bit fields and [_shift = 3]
    whose delays are not multiples of 8, [shift_down] then [shift_up]
    returns delays that are 7 below the old ones, not within one bit. *)
Lemma round_trip_loses_low_bits :
  well_typed lossy_state /\
  shift_up 30 (shift_down lossy_state) = Some lossy_state_back /\
  _delay lossy_state - _delay lossy_state_back = 7 /\
  get (_delay0 lossy_state) 3 - get (_delay0 lossy_state_back) 3 = 7 /\
  ~ within_one_bit (_delay lossy_state) (_delay lossy_state_back) /\
  ~ within_one_bit (get (_delay0 lossy_state) 3)
                   (get (_delay0 lossy_state_back) 3).
Proof.
  split; [typed|]. split; [vm_compute; reflexivity|].
  split; [reflexivity|]. split; [reflexivity|].
  split; intros H; vm_compute in H; apply H; reflexivity.
Qed.



Lemma shift_round_trip_clears_low_bits_witness :
  well_typed lossy_state /\
  shr32 (max_delay_of lossy_state) (_shift lossy_state) <> 0 /\
  exists s',
    (forall fuel, (30 <= fuel)%nat ->
       shift_up fuel (shift_down lossy_state) = Some s') /\
    _shift s' = _shift lossy_state /\
    _delay s' = _delay lossy_state
                - _delay lossy_state mod 2 ^ _shift lossy_state.
Proof.
  assert (Hwt : well_typed lossy_state) by typed.
  assert (Hnz : shr32 (max_delay_of lossy_state) (_shift lossy_state) <> 0)
    by (vm_compute; intros H; discriminate H).
  split; [exact Hwt|]. split; [exact Hnz|].
  destruct (proj2 (shift_round_trip_clears_low_bits lossy_state Hwt) Hnz)
    as (s' & H1 & _ & _ & _ & H5).
  exists s'. split; [exact H1|].
  destruct H5 as (E1 & E2 & _).
  - simpl. lia.
  - vm_compute. intros H; discriminate H.
  - intros _. vm_compute. reflexivity.
  - split; assumption.
Defined.

End GeneralEvaluation.
